(** * bittorrent-client: the torrent session (lib/torrent.js)

    A shallow embedding of the block scheduler, the peer session adapter and
    the metadata bootstrap of [Torrent], and of the lookup, removal and
    statistics of [Client] (index.js), with the properties the design
    document states about them and further properties read off the code.

    The storage engine (lib/storage.js), the descriptor parser
    (parse-torrent) and the peer wire (bittorrent-swarm) are collaborators of
    the code embedded here.  The first two are interfaces ([Storage.Engine],
    [Parser]); the wire is a record holding the fields the torrent code
    reads ([requests], [peerPieces], [peerChoking], [remoteAddress]) and a
    flag telling whether the block-exchange handlers are registered on it.
    Every call the code makes on a collaborator is recorded in a trace of
    [Call]s, so that "does not write", "does not disconnect" and "emits no
    error" are statements about that trace. *)

From Stdlib Require Import ZArith Ascii String Bool Lia Sorted.
From stdpp Require Import base list option.

Local Open Scope string_scope.
Local Open Scope list_scope.

(** ** Constants *)

Definition BLOCK_LENGTH : Z := 16 * 1024.
Definition MAX_BLOCK_LENGTH : Z := 128 * 1024.
Definition MAX_OUTSTANDING_REQUESTS : nat := 5.
Definition METADATA_BLOCK_LENGTH : Z := 16 * 1024.
Definition PIECE_TIMEOUT : Z := 10000.

(** ** Data *)

(** A node Buffer.  A Buffer is an object: it is truthy whatever its
    contents, so [option Buffer] is the faithful type of a field that is
    either [null] or a Buffer. *)
Definition Buffer : Type := list Byte.byte.

Fixpoint buffer_eqb (a b : Buffer) : bool :=
  match a, b with
  | [], [] => true
  | x :: a', y :: b' => Byte.eqb x y && buffer_eqb a' b'
  | _, _ => false
  end.

(** A JavaScript [Error], identified by its message. *)
Definition Error : Type := string.

Record File := mkFile {
  file_name : string;
  file_length : Z;
  file_offset : Z
}.

(** What parse-torrent returns: the content descriptor. *)
Record ParsedTorrent := mkParsedTorrent {
  pt_name : string;
  pt_infoHash : string;
  pt_length : Z;
  pt_pieceLength : Z;
  pt_pieces : list Buffer;
  pt_files : list File
}.

(** The object [storage.selectBlock] returns. *)
Record Block := mkBlock {
  block_offset : Z;
  block_length : Z
}.

(** An entry of [wire.requests].  The callback handed to [wire.request] is a
    closure over [index] and [block.offset]; the entry keeps those, and
    [requestCallback] below is the closure's body. *)
Record Request := mkRequest {
  req_index : nat;
  req_offset : Z;
  req_length : Z
}.

Record Wire := mkWire {
  remoteAddress : string;
  requests : list Request;
  peerPieces : list bool;
  peerChoking : bool;
  (* the handlers of [_onWireWithMetadata] are registered on this wire *)
  exchange : bool
}.

Inductive Event :=
| ev_error (err : Error)
| ev_metadata.

(** Calls made on the collaborators, in program order. *)
Inductive Call :=
| storage_new (parsed : ParsedTorrent)
| storage_selectBlock (index : nat) (endGame : bool)
| storage_deselectBlock (index : nat) (offset : Z)
| storage_writeBlock (index : nat) (offset : Z) (buffer : Buffer)
| storage_readBlock (index : nat) (offset len : Z)
| wire_request (addr : string) (index : nat) (offset len : Z)
| wire_destroy (addr : string)
| wire_bitfield (addr : string) (bits : list bool)
| wire_interested (addr : string)
| cb (res : Error + Buffer)
| emit (ev : Event).

(** ** Collaborator interfaces *)

(** lib/storage.js, as torrent.js uses it.  [selectBlock] marks the block
    it returns, so it yields the new engine state with its result;
    [pieces s i] is the truthiness of [storage.pieces[i]]. *)
Module Storage.
Class Engine (S : Type) := {
  new : ParsedTorrent -> S;
  selectBlock : S -> nat -> bool -> option Block * S;
  deselectBlock : S -> nat -> Z -> S;
  writeBlock : S -> nat -> Z -> Buffer -> S;
  readBlock : S -> nat -> Z -> Z -> option Buffer;
  numMissing : S -> Z;
  pieces : S -> nat -> bool;
  downloaded : S -> Z;
  bitfield : S -> list bool;
  files : S -> list File
}.
End Storage.

(** parse-torrent: [inl err] when it throws. *)
Class Parser := {
  parseTorrent : Buffer -> Error + ParsedTorrent
}.

(** ** The connection monad

    The handlers of one wire run on the session's storage engine and on
    that wire.  A computation maps that pair to a result, the pair after the
    run and the calls made. *)

Record Conn (S : Type) := mkConn {
  storage : S;
  wire : Wire
}.
Arguments mkConn {S} _ _.
Arguments storage {S} _.
Arguments wire {S} _.

Definition M (S A : Type) : Type := Conn S -> A * Conn S * list Call.

Definition ret {S A} (a : A) : M S A := fun c => (a, c, []).

Definition bind {S A B} (m : M S A) (k : A -> M S B) : M S B :=
  fun c =>
    let '(a, c1, t1) := m c in
    let '(b, c2, t2) := k a c1 in
    (b, c2, t1 ++ t2).

Notation "x <- m ;; k" := (bind m (fun x => k))
  (at level 100, m at next level, right associativity).
Notation "m ;;; k" := (bind m (fun _ => k))
  (at level 100, right associativity).

Definition get {S} : M S (Conn S) := fun c => (c, c, []).

Definition call {S} (f : Conn S -> Conn S) (e : Conn S -> Call) : M S unit :=
  fun c => (tt, f c, [e c]).

(** [for (var index = 0; index < len; index++) body(index)] *)
Fixpoint for_ {S} (indices : list nat) (body : nat -> M S unit) : M S unit :=
  match indices with
  | [] => ret tt
  | index :: rest => body index ;;; for_ rest body
  end.

Definition state_of {S A} (r : A * Conn S * list Call) : Conn S := snd (fst r).
Definition trace_of {S A} (r : A * Conn S * list Call) : list Call := snd r.

Section Scheduler.
Context {S : Type} `{Storage.Engine S}.

(** *** Primitive operations *)

(** [self.storage.selectBlock(index, endGame)] *)
Definition do_selectBlock (index : nat) (endGame : bool) : M S (option Block) :=
  fun c =>
    let '(block, s') := Storage.selectBlock (storage c) index endGame in
    (block, mkConn s' (wire c), [storage_selectBlock index endGame]).

(** [self.storage.deselectBlock(index, offset)] *)
Definition do_deselectBlock (index : nat) (offset : Z) : M S unit :=
  call (fun c => mkConn (Storage.deselectBlock (storage c) index offset) (wire c))
       (fun _ => storage_deselectBlock index offset).

(** [self.storage.writeBlock(index, offset, buffer)] *)
Definition do_writeBlock (index : nat) (offset : Z) (buffer : Buffer) : M S unit :=
  call (fun c => mkConn (Storage.writeBlock (storage c) index offset buffer) (wire c))
       (fun _ => storage_writeBlock index offset buffer).

(** [self.storage.readBlock(index, offset, length)] *)
Definition do_readBlock (index : nat) (offset len : Z) : M S (option Buffer) :=
  fun c => (Storage.readBlock (storage c) index offset len, c,
            [storage_readBlock index offset len]).

Definition push_request (r : Request) (w : Wire) : Wire :=
  mkWire (remoteAddress w) (requests w ++ [r]) (peerPieces w)
         (peerChoking w) (exchange w).

(** [wire.request(index, offset, length, cb)]: the request joins
    [wire.requests] until it is answered, fails or times out. *)
Definition do_wire_request (index : nat) (offset len : Z) : M S unit :=
  call (fun c => mkConn (storage c)
                        (push_request (mkRequest index offset len) (wire c)))
       (fun c => wire_request (remoteAddress (wire c)) index offset len).

(** [wire.destroy()] *)
Definition do_wire_destroy : M S unit :=
  call (fun c => c) (fun c => wire_destroy (remoteAddress (wire c))).

(** [cb(err)] and [cb(null, block)] of an incoming request *)
Definition do_cb (res : Error + Buffer) : M S unit :=
  call (fun c => c) (fun _ => cb res).

(** *** requestPiece and requestPieces *)

Definition requestPiece (index : nat) : M S unit :=
  c <- get ;;
  let len := length (requests (wire c)) in
  if (MAX_OUTSTANDING_REQUESTS <=? len)%nat then ret tt
  else
    let endGame := (len =? 0)%nat && (Storage.numMissing (storage c) <? 30)%Z in
    block <- do_selectBlock index endGame ;;
    match block with
    | None => ret tt
    | Some block =>
        do_wire_request index (block_offset block) (block_length block)
    end.

(** The test of the loop body,
    [wire.peerPieces[index] && self.storage.pieces[index]], read when the
    loop reaches [index]. *)
Definition candidate (c : Conn S) (index : nat) : bool :=
  default false (peerPieces (wire c) !! index) && Storage.pieces (storage c) index.

Definition requestPieces_body (index : nat) : M S unit :=
  c <- get ;;
  if candidate c index then requestPiece index else ret tt.

Definition requestPieces : M S unit :=
  c <- get ;;
  for_ (seq 0 (length (peerPieces (wire c)))) requestPieces_body.

(** The body of the callback given to [wire.request] for the request [r]. *)
Definition requestCallback (r : Request) (res : Error + Buffer) : M S unit :=
  match res with
  | inl _ => do_deselectBlock (req_index r) (req_offset r)
  | inr buffer =>
      do_writeBlock (req_index r) (req_offset r) buffer ;;;
      requestPieces
  end.

(** *** Handlers registered by [_onWireWithMetadata] *)

(** [wire.on('have', ...)] *)
Definition onHave (index : nat) : M S unit :=
  c <- get ;;
  if peerChoking (wire c) || negb (Storage.pieces (storage c) index) then ret tt
  else requestPiece index.

(** [wire.on('unchoke', requestPieces)] *)
Definition onUnchoke : M S unit := requestPieces.

(** The function [wire.on('request', ...)] hands to [process.nextTick]. *)
Inductive Tick := tick_read (index : nat) (offset len : Z).

Definition runTick (t : Tick) : M S unit :=
  match t with
  | tick_read index offset len =>
      block <- do_readBlock index offset len ;;
      match block with
      | None => do_cb (inl "requested block not available")
      | Some block => do_cb (inr block)
      end
  end.

(** [wire.on('request', function (index, offset, length, cb) ...)]: the
    result is what was scheduled for the next tick, if anything. *)
Definition onRequest (index : nat) (offset len : Z) : M S (option Tick) :=
  if (len >? MAX_BLOCK_LENGTH)%Z then
    do_wire_destroy ;;; ret None
  else ret (Some (tick_read index offset len)).

(** *** The wire delivering events

    What the wire itself does before it calls a handler: a HAVE sets the
    peer's bit (a JavaScript array grows when written past its end), an
    UNCHOKE and a CHOKE set [peerChoking], and a response, failure or
    timeout removes the request from [wire.requests] and runs its
    callback. *)

Definition set_have (index : nat) (l : list bool) : list bool :=
  if (index <? length l)%nat then <[index := true]> l
  else l ++ replicate (index - length l) false ++ [true].

Definition update_wire (f : Wire -> Wire) : M S unit :=
  fun c => (tt, mkConn (storage c) (f (wire c)), []).

Inductive WireEvent :=
| peer_have (index : nat)
| peer_unchoke
| peer_choke
| peer_response (k : nat) (res : Error + Buffer).

(** The wire's part of an event, before the handler runs. *)
Definition wire_update (ev : WireEvent) (w : Wire) : Wire :=
  match ev with
  | peer_have index =>
      mkWire (remoteAddress w) (requests w) (set_have index (peerPieces w))
             (peerChoking w) (exchange w)
  | peer_unchoke =>
      mkWire (remoteAddress w) (requests w) (peerPieces w) false (exchange w)
  | peer_choke =>
      mkWire (remoteAddress w) (requests w) (peerPieces w) true (exchange w)
  | peer_response k _ =>
      mkWire (remoteAddress w) (delete k (requests w)) (peerPieces w)
             (peerChoking w) (exchange w)
  end.

(** The handlers run only on a wire on which [_onWireWithMetadata] has
    registered them; a response for a request that is not outstanding is
    dropped. *)
Definition deliver (ev : WireEvent) : M S unit :=
  c <- get ;;
  match ev with
  | peer_have index =>
      update_wire (wire_update ev) ;;;
      if exchange (wire c) then onHave index else ret tt
  | peer_unchoke =>
      update_wire (wire_update ev) ;;;
      if exchange (wire c) then onUnchoke else ret tt
  | peer_choke => update_wire (wire_update ev)
  | peer_response k res =>
      match requests (wire c) !! k with
      | None => ret tt
      | Some r => update_wire (wire_update ev) ;;; requestCallback r res
      end
  end.

(** A run of events, threading the connection and collecting the trace. *)
Fixpoint run (evs : list WireEvent) : M S unit :=
  match evs with
  | [] => ret tt
  | ev :: rest => deliver ev ;;; run rest
  end.

End Scheduler.

(** ** The session *)

(** A JavaScript number that is either an integer or the quotient of two
    integers; the division is kept symbolic. *)
Inductive Number :=
| int (z : Z)
| quot (a b : Z).

Module Torrent.
Section Session.
Context {S : Type} `{Storage.Engine S} `{Parser}.

(** The fields of [Torrent] that the embedded methods read or write.
    [infoHash] and [name] are [undefined] until they are assigned. *)
Record t := mk {
  infoHash : option string;
  name : option string;
  files : list File;
  metadata : option Buffer;
  parsedTorrent : option ParsedTorrent;
  storage : option S;
  (* [self.swarm.wires], once the swarm exists *)
  swarm : option (list Wire)
}.

(** *** Accessors *)

(** [get downloaded]: [(self.storage && self.storage.downloaded) || 0] *)
Definition downloaded (self : t) : Z :=
  match storage self with
  | None => 0
  | Some st => if (Storage.downloaded st =? 0)%Z then 0 else Storage.downloaded st
  end.

(** [get length] *)
Definition length (self : t) : Z :=
  match parsedTorrent self with
  | None => 0
  | Some parsed => pt_length parsed
  end.

(** [get progress] *)
Definition progress (self : t) : Number :=
  match parsedTorrent self with
  | None => int 0
  | Some parsed => quot (downloaded self) (pt_length parsed)
  end.

(** *** Metadata bootstrap *)

(** [_onWireWithMetadata(wire)]: registers the handlers embedded in
    [Scheduler], then sends the bitfield and declares interest. *)
Definition _onWireWithMetadata (st : S) (w : Wire) : Wire * list Call :=
  (mkWire (remoteAddress w) (requests w) (peerPieces w) (peerChoking w) true,
   [wire_bitfield (remoteAddress w) (Storage.bitfield st);
    wire_interested (remoteAddress w)]).

(** [self.swarm.wires.forEach(function (wire) { ... })] *)
Fixpoint forEach_wire (st : S) (ws : list Wire) : list Wire * list Call :=
  match ws with
  | [] => ([], [])
  | w :: rest =>
      let '(w', t1) := _onWireWithMetadata st w in
      let '(rest', t2) := forEach_wire st rest in
      (w' :: rest', t1 ++ t2)
  end.

Definition _onMetadata (self : t) (candidate : Buffer) : t * list Call :=
  match metadata self with
  | Some _ => (self, [])
  | None =>
      match parseTorrent candidate with
      | inl err =>
          (mk (infoHash self) (name self) (files self) (Some candidate)
              (parsedTorrent self) (storage self) (swarm self),
           [emit (ev_error err)])
      | inr parsed =>
          let st := Storage.new parsed in
          let '(wires, t) :=
            match swarm self with
            | None => (None, [])
            | Some ws =>
                let '(ws', t) := forEach_wire st ws in (Some ws', t)
            end in
          (mk (Some (pt_infoHash parsed)) (Some (pt_name parsed))
              (files self ++ Storage.files st) (Some candidate)
              (Some parsed) (Some st) wires,
           [storage_new parsed] ++ t ++ [emit ev_metadata])
      end
  end.

(** Deliveries one after the other, as the wires of the swarm make them. *)
Fixpoint deliveries (self : t) (candidates : list Buffer) : t * list Call :=
  match candidates with
  | [] => (self, [])
  | candidate :: rest =>
      let '(self1, t1) := _onMetadata self candidate in
      let '(self2, t2) := deliveries self1 rest in
      (self2, t1 ++ t2)
  end.

End Session.
Arguments t : clear implicits.
Arguments mk {S} _ _ _ _ _ _ _.
End Torrent.

(** ** A storage engine following the design document

    lib/storage.js is not part of the embedded sources.  The properties
    below are proved for every [Storage.Engine]; this engine instantiates
    them on concrete inputs. *)

Module SpecStorage.

Inductive BlockState := missing | requested | written.

Record PBlock := mkPBlock {
  b_offset : Z;
  b_length : Z;
  b_state : BlockState;
  b_data : Buffer
}.

Record Piece := mkPiece {
  p_hash : Buffer;
  p_blocks : list PBlock;
  p_verified : bool
}.

Record t := mk {
  digest : Buffer -> Buffer;
  st_pieces : list Piece;
  st_files : list File
}.

Definition is_missing (b : PBlock) : bool :=
  match b_state b with missing => true | _ => false end.
Definition is_requested (b : PBlock) : bool :=
  match b_state b with requested => true | _ => false end.
Definition is_written (b : PBlock) : bool :=
  match b_state b with written => true | _ => false end.

(** Position of the first element satisfying [p]. *)
Fixpoint find_index {A} (p : A -> bool) (l : list A) : option nat :=
  match l with
  | [] => None
  | x :: rest => if p x then Some 0 else S <$> find_index p rest
  end.

Definition set_state (s : BlockState) (b : PBlock) : PBlock :=
  mkPBlock (b_offset b) (b_length b) s (b_data b).

Definition reset_block (b : PBlock) : PBlock :=
  mkPBlock (b_offset b) (b_length b) missing [].

Definition with_blocks (p : Piece) (bs : list PBlock) : Piece :=
  mkPiece (p_hash p) bs (p_verified p).

Definition with_piece (st : t) (index : nat) (p : Piece) : t :=
  mk (digest st) (<[index := p]> (st_pieces st)) (st_files st).

Definition piece_length (p : Piece) : Z :=
  foldr (fun b acc => (b_length b + acc)%Z) 0%Z (p_blocks p).

Definition piece_data (p : Piece) : Buffer :=
  concat (map b_data (p_blocks p)).

(** Blocks of a piece of [len] bytes: [n] blocks of the standard unit, the
    last one shorter when [len] is not a multiple of it. *)
Definition make_blocks (len : Z) : list PBlock :=
  map (fun k : nat =>
         let off := (Z.of_nat k * BLOCK_LENGTH)%Z in
         mkPBlock off (Z.min BLOCK_LENGTH (len - off)) missing [])
      (seq 0 (Z.to_nat ((len + BLOCK_LENGTH - 1) / BLOCK_LENGTH))).

(** Modelled from the spec: the constructor of the storage engine, one piece
    per integrity hash of the descriptor, the final piece taking what is
    left of the total length. *)
Definition new (dg : Buffer -> Buffer) (parsed : ParsedTorrent) : t :=
  mk dg
     (imap (fun i h =>
              let start := (Z.of_nat i * pt_pieceLength parsed)%Z in
              mkPiece h
                (make_blocks (Z.min (pt_pieceLength parsed)
                                    (pt_length parsed - start)))
                false)
           (pt_pieces parsed))
     (pt_files parsed).

(** Modelled from the spec: [selectBlock], the first missing block in
    ascending offset order, which becomes requested; in endgame, when no
    block is missing, the first requested block. *)
Definition selectBlock (st : t) (index : nat) (endgame : bool) : option Block * t :=
  match st_pieces st !! index with
  | None => (None, st)
  | Some p =>
      match find_index is_missing (p_blocks p) with
      | Some k =>
          match p_blocks p !! k with
          | Some b =>
              (Some (mkBlock (b_offset b) (b_length b)),
               with_piece st index
                 (with_blocks p (<[k := set_state requested b]> (p_blocks p))))
          | None => (None, st)
          end
      | None =>
          if endgame then
            match find_index is_requested (p_blocks p) with
            | Some k =>
                ((fun b => mkBlock (b_offset b) (b_length b)) <$> p_blocks p !! k,
                 st)
            | None => (None, st)
            end
          else (None, st)
      end
  end.

(** Modelled from the spec: [deselectBlock], requested becomes missing,
    nothing else changes. *)
Definition deselectBlock (st : t) (index : nat) (offset : Z) : t :=
  match st_pieces st !! index with
  | None => st
  | Some p =>
      with_piece st index
        (with_blocks p
           (map (fun b =>
                   if (b_offset b =? offset)%Z && is_requested b
                   then set_state missing b else b)
                (p_blocks p)))
  end.

(** Modelled from the spec: [writeBlock], with the integrity check when the
    piece has all its blocks. *)
Definition writeBlock (st : t) (index : nat) (offset : Z) (bytes : Buffer) : t :=
  match st_pieces st !! index with
  | None => st
  | Some p =>
      if p_verified p then st
      else
        let bs := map (fun b =>
                         if (b_offset b =? offset)%Z
                         then mkPBlock (b_offset b) (b_length b) written bytes
                         else b)
                      (p_blocks p) in
        let p1 := with_blocks p bs in
        if forallb is_written bs then
          if buffer_eqb (digest st (piece_data p1)) (p_hash p)
          then with_piece st index (mkPiece (p_hash p) bs true)
          else with_piece st index (with_blocks p (map reset_block bs))
        else with_piece st index p1
  end.

(** Modelled from the spec: [readBlock], bytes of verified pieces only. *)
Definition readBlock (st : t) (index : nat) (offset len : Z) : option Buffer :=
  match st_pieces st !! index with
  | None => None
  | Some p =>
      if p_verified p
      then Some (take (Z.to_nat len) (drop (Z.to_nat offset) (piece_data p)))
      else None
  end.

(** Modelled from the spec: the derived queries. *)
Definition numMissing (st : t) : Z :=
  Z.of_nat (List.length (filter (fun p => p_verified p = false) (st_pieces st))).

Definition pieces (st : t) (index : nat) : bool :=
  bool_decide (is_Some (st_pieces st !! index)).

Definition downloaded (st : t) : Z :=
  foldr (fun p acc => if p_verified p then (piece_length p + acc)%Z else acc)
        0%Z (st_pieces st).

Definition bitfield (st : t) : list bool := map p_verified (st_pieces st).

Definition engine (dg : Buffer -> Buffer) : Storage.Engine t :=
  {| Storage.new := new dg;
     Storage.selectBlock := selectBlock;
     Storage.deselectBlock := deselectBlock;
     Storage.writeBlock := writeBlock;
     Storage.readBlock := readBlock;
     Storage.numMissing := numMissing;
     Storage.pieces := pieces;
     Storage.downloaded := downloaded;
     Storage.bitfield := bitfield;
     Storage.files := st_files |}.

End SpecStorage.

(** ** Concrete inputs

    A two-piece descriptor, a parser for it and a few sessions and
    connections, on which the definitions above are evaluated. *)

Module Example.

(** A digest short enough to write down: the first four bytes. *)
Definition digest (b : Buffer) : Buffer := take 4 b.

Definition engine : Storage.Engine SpecStorage.t := SpecStorage.engine digest.

(** A candidate parses when it starts with [d], as a bencoded dictionary
    does; the fingerprint of the result is computed from the candidate's
    bytes.  The descriptor is the same for all of them: two pieces of
    16 KiB, one file. *)
Definition parse (candidate : Buffer) : Error + ParsedTorrent :=
  match candidate with
  | Byte.x64 :: _ =>
      inr (mkParsedTorrent "leaves" (string_of_list_byte candidate)
             32768 16384
             [list_byte_of_string "aaaa"; list_byte_of_string "bbbb"]
             [mkFile "leaves.txt" 32768 0])
  | _ => inl "Invalid data: Missing delimiter"
  end.

Definition parser : Parser := {| parseTorrent := parse |}.

Definition good : Buffer := list_byte_of_string "d4:name6:leavese".
Definition corrupt : Buffer := list_byte_of_string "garbage".

Definition peer : Wire := mkWire "10.0.0.2:6881" [] [true; true] false false.

(** A session started from the fingerprint of [good] alone, with one
    connected peer. *)
Definition fresh : Torrent.t SpecStorage.t :=
  Torrent.mk (Some "d4:name6:leavese") None [] None None None (Some [peer]).

(** The same, declaring a fingerprint that no candidate above has. *)
Definition declared : Torrent.t SpecStorage.t :=
  Torrent.mk (Some "aaaaaaaaaaaaaaaaaaaaaaaaaaaaaaaaaaaaaaaa") None [] None
             None None (Some [peer]).

Definition descriptor : ParsedTorrent :=
  mkParsedTorrent "leaves" "d4:name6:leavese" 32768 16384
    [list_byte_of_string "aaaa"; list_byte_of_string "bbbb"]
    [mkFile "leaves.txt" 32768 0].

(** A connection in block exchange: nothing downloaded, nothing
    outstanding, the peer has both pieces and does not choke. *)
Definition conn : Conn SpecStorage.t :=
  mkConn (SpecStorage.new digest descriptor)
         (mkWire "10.0.0.2:6881" [] [true; true] false true).

(** The same connection with five requests outstanding. *)
Definition busy : Conn SpecStorage.t :=
  mkConn (SpecStorage.new digest descriptor)
         (mkWire "10.0.0.2:6881"
                 (replicate 5 (mkRequest 0 0 16384)) [true; true] false true).

End Example.

(** ** A new connection: [_onWire] *)

(** The calls of [_onWire] and [_onStoragePiece] on a wire, besides those
    of [Call]. *)
Inductive SessionCall :=
| on_wire (c : Call)
| wire_use_ut_metadata (addr : string) (metadata : option Buffer)
| wire_on_metadata (addr : string)
| wire_fetch (addr : string)
| wire_setKeepAlive (addr : string) (enable : bool)
| wire_port (addr : string) (port : Z)
| wire_setTimeout (addr : string) (ms : Z).

(** How a call ends: it returns, or it throws. *)
Inductive Completion :=
| returns
| throws (err : Error).

Module Adapter.
Section Adapter.
Context {S : Type} `{Storage.Engine S}.

(** [wire.peerExtensions.dht && self.dhtPort]: a port that is [undefined]
    or 0 is falsy. *)
Definition dht_port (peer_dht : bool) (dhtPort : option Z) : option Z :=
  if peer_dht then
    match dhtPort with
    | Some port => if (port =? 0)%Z then None else Some port
    | None => None
    end
  else None.

(** [Torrent.prototype._onWire].  [dhtPort] is [self.dhtPort] and
    [peer_dht] is [wire.peerExtensions.dht].  With metadata but without a
    storage engine, [_onWireWithMetadata] registers its handlers and then
    throws when it reads [self.storage.bitfield]; the calls made until then
    are kept.  The listener for 'port' only writes to the console. *)
Definition _onWire (self : Torrent.t S) (dhtPort : option Z) (peer_dht : bool)
           (w : Wire) : Wire * list SessionCall * Completion :=
  let addr := remoteAddress w in
  let before :=
    [wire_use_ut_metadata addr (Torrent.metadata self)]
    ++ match Torrent.metadata self with
       | None => [wire_on_metadata addr; wire_fetch addr]
       | Some _ => []
       end
    ++ [wire_setKeepAlive addr true]
    ++ match dht_port peer_dht dhtPort with
       | Some port => [wire_port addr port]
       | None => []
       end
    ++ [wire_setTimeout addr PIECE_TIMEOUT] in
  match Torrent.metadata self with
  | None => (w, before, returns)
  | Some _ =>
      match Torrent.storage self with
      | Some st =>
          let '(w', t) := Torrent._onWireWithMetadata st w in
          (w', before ++ map on_wire t, returns)
      | None =>
          (mkWire (remoteAddress w) (requests w) (peerPieces w)
                  (peerChoking w) true,
           before,
           throws "TypeError: Cannot read property 'bitfield' of null")
      end
  end.

End Adapter.
End Adapter.

(** ** The client (index.js) *)

(** What magnet-uri returns for a URI: an object whose [infoHash] and
    [name] may be missing. *)
Record MagnetInfo := mkMagnetInfo {
  magnet_infoHash : option string;
  magnet_name : option string
}.

Class MagnetUri := {
  magnet : string -> MagnetInfo
}.

(** A [torrentId]: a string, a Buffer, or any other value. *)
Inductive TorrentId :=
| id_string (s : string)
| id_buffer (b : Buffer)
| id_other.

(** What [toInfoHash] returns. *)
Inductive InfoHash :=
| hash_string (s : string)
| hash_null
| hash_undefined.

(** The function a caller gives to [remove] or [destroy]. *)
Inductive Callback := callback (id : nat).

Inductive ClientCall :=
| dht_close
| swarm_destroy (infoHash : option string) (cb : option Callback).

(** The exception of [remove]. *)
Inductive ClientError := no_torrent_with_id (torrentId : TorrentId).

(** [buffer.toString('hex')] *)
Definition hex_digit (n : nat) : Ascii.ascii :=
  (match n with
  | 0 => "0" | 1 => "1" | 2 => "2" | 3 => "3" | 4 => "4" | 5 => "5"
  | 6 => "6" | 7 => "7" | 8 => "8" | 9 => "9" | 10 => "a" | 11 => "b"
  | 12 => "c" | 13 => "d" | 14 => "e" | _ => "f"
   end)%char.

Fixpoint to_hex (b : Buffer) : string :=
  match b with
  | [] => EmptyString
  | x :: rest =>
      String (hex_digit (Byte.to_nat x / 16))
        (String (hex_digit (Byte.to_nat x mod 16)) (to_hex rest))
  end.

Module Client.
Section Client.
Context {S : Type} `{Storage.Engine S} `{Parser} `{MagnetUri}.

(** A torrent of the client: the session and [swarm.uploaded]. *)
Record Handle := mkHandle {
  session : Torrent.t S;
  swarm_uploaded : Z
}.

Record t := mk {
  torrents : list Handle;
  (* [self.dht] exists *)
  dht : bool
}.

(** [Torrent.prototype.uploaded] *)
Definition uploaded (torrent : Handle) : Z := swarm_uploaded torrent.


(** [Client.prototype.ratio]: the sums are sums of byte counts. *)
Definition ratio (self : t) : Number :=
  let uploaded :=
    fold_left (fun total torrent => (total + uploaded torrent)%Z)
              (torrents self) 0%Z in
  let downloaded :=
    fold_left (fun total torrent =>
                 (total + Torrent.downloaded (session torrent))%Z)
              (torrents self) 0%Z in
  if (downloaded =? 0)%Z then int 0 else quot uploaded downloaded.

(** The test shared by [toInfoHash] and the constructor of [Torrent]:
    [!/^magnet:/.test(torrentId) && torrentId.length === 40
     || torrentId.length === 32], and the prefix it adds. *)
Definition as_magnet_uri (torrentId : string) : string :=
  if negb (String.prefix "magnet:" torrentId)
     && (String.length torrentId =? 40)%nat
     || (String.length torrentId =? 32)%nat
  then "magnet:?xt=urn:btih:" ++ torrentId
  else torrentId.

(** [info && info.infoHash] on the object magnet-uri returned *)
Definition of_magnet (info : MagnetInfo) : InfoHash :=
  match magnet_infoHash info with
  | Some h => hash_string h
  | None => hash_undefined
  end.

(** [Client.toInfoHash] *)
Definition toInfoHash (torrentId : TorrentId) : InfoHash :=
  match torrentId with
  | id_string s => of_magnet (magnet (as_magnet_uri s))
  | id_buffer b =>
      if (length b =? 20)%nat then hash_string (to_hex b)
      else
        match parseTorrent b with
        | inr parsed => hash_string (pt_infoHash parsed)
        | inl _ => hash_null
        end
  | id_other => hash_undefined
  end.

(** [torrent.infoHash === infoHash] *)
Definition strict_eq (mine : option string) (infoHash : InfoHash) : bool :=
  match mine, infoHash with
  | Some a, hash_string b => String.eqb a b
  | None, hash_undefined => true
  | _, _ => false
  end.

Definition matches (infoHash : InfoHash) (torrent : Handle) : bool :=
  strict_eq (Torrent.infoHash (session torrent)) infoHash.

(** The loop of [get]: position and value of the first torrent with the
    fingerprint, from position [i] on. *)
Fixpoint search (infoHash : InfoHash) (i : nat) (l : list Handle)
  : option (nat * Handle) :=
  match l with
  | [] => None
  | torrent :: rest =>
      if matches infoHash torrent then Some (i, torrent)
      else search infoHash (Datatypes.S i) rest
  end.

(** [Client.prototype.get]; [None] is [null]. *)
Definition get (self : t) (torrentId : TorrentId) : option Handle :=
  snd <$> search (toInfoHash torrentId) 0 (torrents self).

(** [Client.prototype.remove].  [get] returns the first torrent with the
    fingerprint, so no earlier position of the array holds that object and
    [indexOf] is the position at which the loop of [get] stopped. *)
Definition remove (self : t) (torrentId : TorrentId) (cb : option Callback)
  : t * list ClientCall * option ClientError :=
  match search (toInfoHash torrentId) 0 (torrents self) with
  | None => (self, [], Some (no_torrent_with_id torrentId))
  | Some (i, torrent) =>
      (mk (delete i (torrents self)) (dht self),
       [swarm_destroy (Torrent.infoHash (session torrent)) cb],
       None)
  end.

(** [torrent.infoHash], handed to [remove] as a [torrentId] *)
Definition id_of (torrent : Handle) : TorrentId :=
  match Torrent.infoHash (session torrent) with
  | Some h => id_string h
  | None => id_other
  end.

(** [torrents.forEach(function (torrent) { self.remove(torrent.infoHash) })]
    over the clone; an exception of [remove] ends the loop. *)
Fixpoint destroy_each (clone : list Handle) (self : t)
  : t * list ClientCall * option ClientError :=
  match clone with
  | [] => (self, [], None)
  | torrent :: rest =>
      match remove self (id_of torrent) None with
      | (self1, t1, Some err) => (self1, t1, Some err)
      | (self1, t1, None) =>
          let '(self2, t2, res) := destroy_each rest self1 in
          (self2, t1 ++ t2, res)
      end
  end.

(** [Client.prototype.destroy] *)
Definition destroy (self : t) (cb : option Callback)
  : t * list ClientCall * option ClientError :=
  let '(self1, calls, res) := destroy_each (torrents self) self in
  ((self1, (if dht self then [dht_close] else []) ++ calls), res).

End Client.
Arguments Handle : clear implicits.
Arguments t : clear implicits.
Arguments mkHandle {S} _ _.
Arguments mk {S} _ _.
End Client.

(** ** Concrete inputs for the client *)

Module ClientExample.

(** A URI [magnet:?xt=urn:btih:<hash>] has the fingerprint [<hash>]; any
    other string has none. *)
Definition parse_magnet (uri : string) : MagnetInfo :=
  if String.prefix "magnet:?xt=urn:btih:" uri
  then mkMagnetInfo (Some (String.substring 20 (String.length uri - 20) uri))
                    None
  else mkMagnetInfo None None.

Definition magnet_uri : MagnetUri := {| magnet := parse_magnet |}.

Definition leaves_hash : string := "d2474e86c95b19b8bcfdb92bc12c9d44667cfa36".
Definition grass_hash : string := "0123456789abcdef0123456789abcdef01234567".

Definition torrent (h : string) (up : Z) : Client.Handle SpecStorage.t :=
  Client.mkHandle (Torrent.mk (Some h) None [] None None None (Some [])) up.

(** Two torrents started from fingerprints, nothing downloaded yet. *)
Definition client : Client.t SpecStorage.t :=
  Client.mk [torrent leaves_hash 0; torrent grass_hash 4096] true.

(** The fingerprint of [leaves_hash] as 20 bytes. *)
Definition leaves_bytes : Buffer :=
  [Byte.xd2; Byte.x47; Byte.x4e; Byte.x86; Byte.xc9; Byte.x5b; Byte.x19;
   Byte.xb8; Byte.xbc; Byte.xfd; Byte.xb9; Byte.x2b; Byte.xc1; Byte.x2c;
   Byte.x9d; Byte.x44; Byte.x66; Byte.x7c; Byte.xfa; Byte.x36].

(** A session that holds a descriptor and its storage engine. *)
Definition ready : Torrent.t SpecStorage.t :=
  Torrent.mk (Some "d4:name6:leavese") (Some "leaves")
             (pt_files Example.descriptor) (Some Example.good)
             (Some Example.descriptor)
             (Some (SpecStorage.new Example.digest Example.descriptor))
             (Some []).


(** [Example.conn] with a peer that chokes us. *)
Definition choked : Conn SpecStorage.t :=
  mkConn (SpecStorage.new Example.digest Example.descriptor)
         (mkWire "10.0.0.2:6881" [] [true; true] true true).

(** [Example.conn] with the first block of piece 0 outstanding. *)
Definition pending : Conn SpecStorage.t :=
  mkConn (snd (SpecStorage.selectBlock
                 (SpecStorage.new Example.digest Example.descriptor) 0 true))
         (mkWire "10.0.0.2:6881" [mkRequest 0 0 16384] [true; true]
                 false true).

End ClientExample.

(** ** Vocabulary of the properties *)

(** Piece indices of the [selectBlock] calls of a trace, in order. *)
Fixpoint selected (t : list Call) : list nat :=
  match t with
  | [] => []
  | storage_selectBlock index _ :: rest => index :: selected rest
  | _ :: rest => selected rest
  end.

(** Piece indices of the [wire.request] calls of a trace, in order. *)
Fixpoint requested (t : list Call) : list nat :=
  match t with
  | [] => []
  | wire_request _ index _ _ :: rest => index :: requested rest
  | _ :: rest => requested rest
  end.

(** Number of 'metadata' events in a trace. *)
Fixpoint metadata_events (t : list Call) : nat :=
  match t with
  | [] => 0
  | emit ev_metadata :: rest => Datatypes.S (metadata_events rest)
  | _ :: rest => metadata_events rest
  end.

(** The connection holds at most the ceiling of outstanding requests. *)
Definition bounded {S} (c : Conn S) : Prop :=
  length (requests (wire c)) <= MAX_OUTSTANDING_REQUESTS.

(** [wire.requests] without its [k]-th entry. *)
Definition answered {S} (k : nat) (c : Conn S) : Conn S :=
  mkConn (storage c)
         (mkWire (remoteAddress (wire c)) (delete k (requests (wire c)))
                 (peerPieces (wire c)) (peerChoking (wire c))
                 (exchange (wire c))).

(** A list that ascends strictly and starts at [a] or later. *)
Definition ascending_from (a : nat) (l : list nat) : Prop :=
  StronglySorted lt l /\ Forall (le a) l.

Section SchedulerVocabulary.
Context {S : Type} `{Storage.Engine S}.
Implicit Types (c : Conn S).

(** The flag [requestPiece] computes. *)
Definition endGame_of c : bool :=
  (length (requests (wire c)) =? 0)%nat
  && (Storage.numMissing (storage c) <? 30)%Z.

(** What a computation leaves alone on the wire. *)
Definition same_peer c c' : Prop :=
  remoteAddress (wire c') = remoteAddress (wire c)
  /\ peerPieces (wire c') = peerPieces (wire c)
  /\ peerChoking (wire c') = peerChoking (wire c)
  /\ exchange (wire c') = exchange (wire c).

Definition updated (ev : WireEvent) c : Conn S :=
  mkConn (storage c) (wire_update ev (wire c)).

(** The connection when the loop of [requestPieces] reaches [index]. *)
Definition reach (index : nat) c : Conn S :=
  state_of (for_ (seq 0 index) requestPieces_body c).

(** When the loop reaches [index], the peer advertises the piece, the
    storage engine holds it and the wire has room under the ceiling. *)
Definition selectable c (index : nat) : Prop :=
  peerPieces (wire c) !! index = Some true
  /\ Storage.pieces (storage (reach index c)) index = true
  /\ length (requests (wire (reach index c))) < MAX_OUTSTANDING_REQUESTS.

(** The piece is selectable and the storage engine has a block of it to
    hand out when the loop reaches it. *)
Definition available c (index : nat) : Prop :=
  selectable c index
  /\ is_Some (fst (Storage.selectBlock (storage (reach index c)) index
                                       (endGame_of (reach index c)))).

End SchedulerVocabulary.

Section SessionVocabulary.
Context {S : Type} `{Storage.Engine S} `{Parser}.
Implicit Types (self : Torrent.t S) (candidate : Buffer).

(** The session signals that its descriptor is ready. *)
Definition accepted self candidate : Prop :=
  In (emit ev_metadata) (snd (Torrent._onMetadata self candidate)).

(** The fingerprint computed from the bytes of a candidate. *)
Definition fingerprint_of candidate : option string :=
  match parseTorrent candidate with
  | inl _ => None
  | inr parsed => Some (pt_infoHash parsed)
  end.

(** Acceptance only of a candidate whose fingerprint is the declared one. *)
Definition validated self candidate : Prop :=
  accepted self candidate ->
  fingerprint_of candidate = Torrent.infoHash self.

End SessionVocabulary.

(** ** Vocabulary of the further properties *)

(** The entries [wire.request] calls add to [wire.requests], in order. *)
Fixpoint sent (t : list Call) : list Request :=
  match t with
  | [] => []
  | wire_request _ index offset len :: rest =>
      mkRequest index offset len :: sent rest
  | _ :: rest => sent rest
  end.

(** Piece indices of the [selectBlock] calls made in endgame mode. *)
Fixpoint endgame_selections (t : list Call) : list nat :=
  match t with
  | [] => []
  | storage_selectBlock index true :: rest => index :: endgame_selections rest
  | _ :: rest => endgame_selections rest
  end.

(** What follows the first [wire.request] call of a trace. *)
Fixpoint after_first_request (t : list Call) : list Call :=
  match t with
  | [] => []
  | wire_request _ _ _ _ :: rest => rest
  | _ :: rest => after_first_request rest
  end.

(** A wire with the handlers of [_onWireWithMetadata] registered. *)
Definition switched (w : Wire) : Wire :=
  mkWire (remoteAddress w) (requests w) (peerPieces w) (peerChoking w) true.

Section SessionInvariant.
Context {S : Type} `{Storage.Engine S}.

(** The calls [_onWire] makes on a new wire before it looks whether the
    descriptor is known. *)
Definition handshake_calls (self : Torrent.t S) (dhtPort : option Z)
           (peer_dht : bool) (w : Wire) : list SessionCall :=
  [wire_use_ut_metadata (remoteAddress w) (Torrent.metadata self)]
  ++ match Torrent.metadata self with
     | None => [wire_on_metadata (remoteAddress w);
                wire_fetch (remoteAddress w)]
     | Some _ => []
     end
  ++ [wire_setKeepAlive (remoteAddress w) true]
  ++ match Adapter.dht_port peer_dht dhtPort with
     | Some port => [wire_port (remoteAddress w) port]
     | None => []
     end
  ++ [wire_setTimeout (remoteAddress w) 10000].

(** Descriptor and storage engine come together: a session has both or
    neither; with both, the engine is the one built from the descriptor,
    fingerprint and name are the descriptor's, the metadata is set and the
    files are the engine's; with neither, there are no files. *)
Definition coherent (self : Torrent.t S) : Prop :=
  match Torrent.parsedTorrent self, Torrent.storage self with
  | Some parsed, Some st =>
      st = Storage.new parsed
      /\ Torrent.infoHash self = Some (pt_infoHash parsed)
      /\ Torrent.name self = Some (pt_name parsed)
      /\ is_Some (Torrent.metadata self)
      /\ Torrent.files self = Storage.files st
  | None, None => Torrent.files self = []
  | _, _ => False
  end.

End SessionInvariant.

Section ClientVocabulary.
Context {S : Type} `{Parser} `{MagnetUri}.
Implicit Types (torrent : Client.Handle S).

(** The torrent at position [k] is the first with the fingerprint. *)
Definition first_match (infoHash : InfoHash) (l : list (Client.Handle S))
           (k : nat) torrent : Prop :=
  l !! k = Some torrent
  /\ Client.matches infoHash torrent = true
  /\ forall k' other, k' < k -> l !! k' = Some other ->
                      Client.matches infoHash other = false.

(** [toInfoHash(torrent.infoHash)] is the fingerprint of the torrent. *)
Definition recognised torrent : Prop :=
  Client.matches (Client.toInfoHash (Client.id_of torrent)) torrent = true.

End ClientVocabulary.

(** * Properties *)

Lemma selected_app t1 t2 : selected (t1 ++ t2) = selected t1 ++ selected t2.
Proof.
  induction t1 as [|e t1 IH]; [reflexivity|].
  destruct e; simpl; rewrite ?IH; reflexivity.
Qed.

Lemma requested_app t1 t2 : requested (t1 ++ t2) = requested t1 ++ requested t2.
Proof.
  induction t1 as [|e t1 IH]; [reflexivity|].
  destruct e; simpl; rewrite ?IH; reflexivity.
Qed.

Lemma metadata_events_app t1 t2 :
  metadata_events (t1 ++ t2) = metadata_events t1 + metadata_events t2.
Proof.
  induction t1 as [|e t1 IH]; [reflexivity|].
  destruct e as [| | | | | | | | | |[]]; simpl; rewrite ?IH; reflexivity.
Qed.

(** Reading the state and updating the wire make no call. *)
Lemma bind_get {S B} (k : Conn S -> M S B) (c : Conn S) :
  bind get k c = k c c.
Proof. unfold bind, get. destruct (k c c) as [[b c2] t2]. reflexivity. Qed.

Lemma bind_ret {S A B} (a : A) (k : A -> M S B) (c : Conn S) :
  bind (ret a) k c = k a c.
Proof. unfold bind, ret. destruct (k a c) as [[b c2] t2]. reflexivity. Qed.

Lemma bind_assoc {S A B C} (m : M S A) (k : A -> M S B) (h : B -> M S C)
      (c : Conn S) :
  bind (bind m k) h c = bind m (fun a => bind (k a) h) c.
Proof.
  unfold bind. destruct (m c) as [[a c1] t1].
  destruct (k a c1) as [[b c2] t2]. destruct (h b c2) as [[d c3] t3].
  by rewrite app_assoc.
Qed.

Lemma bind_ext {S A B} (m : M S A) (k k' : A -> M S B) (c : Conn S) :
  (forall a c', k a c' = k' a c') -> bind m k c = bind m k' c.
Proof.
  intros Hk. unfold bind. destruct (m c) as [[a c1] t1]. by rewrite Hk.
Qed.

Section SchedulerProperties.
Context {S : Type} `{Storage.Engine S}.
Implicit Types (c : Conn S) (index k : nat).

Lemma bind_update_wire {B} (f : Wire -> Wire) (k : unit -> M S B) c :
  bind (update_wire f) k c = k tt (mkConn (storage c) (f (wire c))).
Proof.
  unfold bind, update_wire. destruct (k tt _) as [[b c2] t2]. reflexivity.
Qed.

(** [requestPiece], case by case. *)
Lemma requestPiece_eq c index :
  requestPiece index c =
  if (MAX_OUTSTANDING_REQUESTS <=? length (requests (wire c)))%nat
  then (tt, c, [])
  else
    match Storage.selectBlock (storage c) index (endGame_of c) with
    | (None, s') =>
        (tt, mkConn s' (wire c), [storage_selectBlock index (endGame_of c)])
    | (Some b, s') =>
        (tt,
         mkConn s' (push_request
                      (mkRequest index (block_offset b) (block_length b))
                      (wire c)),
         [storage_selectBlock index (endGame_of c);
          wire_request (remoteAddress (wire c)) index
                       (block_offset b) (block_length b)])
    end.
Proof.
  unfold requestPiece, bind, get, do_selectBlock, endGame_of.
  destruct (MAX_OUTSTANDING_REQUESTS <=? _)%nat; [reflexivity|].
  destruct (Storage.selectBlock _ _ _) as [[b|] s']; reflexivity.
Qed.

Lemma same_peer_refl c : same_peer c c.
Proof. repeat split. Qed.

Lemma same_peer_trans c1 c2 c3 :
  same_peer c1 c2 -> same_peer c2 c3 -> same_peer c1 c3.
Proof.
  unfold same_peer. intros (?&?&?&?) (?&?&?&?).
  repeat split; congruence.
Qed.

Lemma requestPiece_same_peer c index :
  same_peer c (state_of (requestPiece index c)).
Proof.
  rewrite requestPiece_eq.
  destruct (_ <=? _)%nat; [apply same_peer_refl|].
  destruct (Storage.selectBlock _ _ _) as [[b|] s']; repeat split.
Qed.

Lemma requestPiece_bounded c index :
  bounded c -> bounded (state_of (requestPiece index c)).
Proof.
  unfold bounded. intros Hc. rewrite requestPiece_eq.
  destruct (Nat.leb_spec MAX_OUTSTANDING_REQUESTS (length (requests (wire c))))
    as [Hfull|Hroom]; [exact Hc|].
  destruct (Storage.selectBlock _ _ _) as [[b|] s']; cbn; [|exact Hc].
  rewrite length_app. cbn. lia.
Qed.

(** A loop keeps what each of its iterations keeps. *)
Lemma for_preserves (P : Conn S -> Prop) (body : nat -> M S unit) :
  (forall i c, P c -> P (state_of (body i c))) ->
  forall l c, P c -> P (state_of (for_ l body c)).
Proof.
  intros Hbody l. induction l as [|i l IH]; intros c Hc; [exact Hc|].
  cbn. unfold bind. specialize (Hbody i c Hc).
  destruct (body i c) as [[[] c1] t1]. specialize (IH c1 Hbody).
  destruct (for_ l body c1) as [[[] c2] t2]. exact IH.
Qed.

Lemma requestPieces_body_eq c index :
  requestPieces_body index c =
  if candidate c index then requestPiece index c else (tt, c, []).
Proof.
  unfold requestPieces_body. rewrite bind_get.
  destruct (candidate c index); reflexivity.
Qed.

Lemma requestPieces_eq c :
  requestPieces c =
  for_ (seq 0 (length (peerPieces (wire c)))) requestPieces_body c.
Proof.
  unfold requestPieces. by rewrite bind_get.
Qed.

Lemma requestPieces_body_bounded index c :
  bounded c -> bounded (state_of (requestPieces_body index c)).
Proof.
  intros Hc. rewrite requestPieces_body_eq.
  destruct (candidate c index); [by apply requestPiece_bounded|exact Hc].
Qed.

Lemma requestPieces_bounded c :
  bounded c -> bounded (state_of (requestPieces c)).
Proof.
  intros Hc. rewrite requestPieces_eq.
  by apply for_preserves; [apply requestPieces_body_bounded|].
Qed.

Lemma answered_bounded c k : bounded c -> bounded (answered k c).
Proof.
  unfold bounded, answered. cbn. intros Hc.
  pose proof (sublist_length _ _ (sublist_delete (requests (wire c)) k)).
  lia.
Qed.

Lemma onHave_eq index c :
  onHave index c =
  if peerChoking (wire c) || negb (Storage.pieces (storage c) index)
  then (tt, c, []) else requestPiece index c.
Proof.
  unfold onHave. rewrite bind_get. destruct (_ || _); reflexivity.
Qed.

Lemma requestCallback_eq (r : Request) (res : Error + Buffer) c :
  requestCallback r res c =
  match res with
  | inl _ =>
      (tt,
       mkConn (Storage.deselectBlock (storage c) (req_index r) (req_offset r))
              (wire c),
       [storage_deselectBlock (req_index r) (req_offset r)])
  | inr buffer =>
      let c1 := mkConn (Storage.writeBlock (storage c) (req_index r)
                                           (req_offset r) buffer) (wire c) in
      (tt, state_of (requestPieces c1),
       storage_writeBlock (req_index r) (req_offset r) buffer
         :: trace_of (requestPieces c1))
  end.
Proof.
  destruct res as [err|buffer]; [reflexivity|].
  unfold requestCallback, bind, do_writeBlock, call.
  destruct (requestPieces _) as [[[] c2] t2]. reflexivity.
Qed.

(** [deliver], event by event. *)
Lemma deliver_eq (ev : WireEvent) c :
  deliver ev c =
  match ev with
  | peer_have index =>
      if exchange (wire c) then onHave index (updated ev c)
      else (tt, updated ev c, [])
  | peer_unchoke =>
      if exchange (wire c) then requestPieces (updated ev c)
      else (tt, updated ev c, [])
  | peer_choke => (tt, updated ev c, [])
  | peer_response k res =>
      match requests (wire c) !! k with
      | None => (tt, c, [])
      | Some r => requestCallback r res (updated ev c)
      end
  end.
Proof.
  unfold deliver. rewrite bind_get.
  destruct ev as [index| | |k res].
  - rewrite bind_update_wire. destruct (exchange (wire c)); reflexivity.
  - rewrite bind_update_wire. destruct (exchange (wire c)); reflexivity.
  - reflexivity.
  - destruct (requests (wire c) !! k) as [r|]; [|reflexivity].
    rewrite bind_update_wire. reflexivity.
Qed.

Lemma updated_bounded (ev : WireEvent) c : bounded c -> bounded (updated ev c).
Proof.
  destruct ev as [index| | |k res]; try (intros Hc; exact Hc).
  apply (answered_bounded c k).
Qed.

Lemma deliver_bounded (ev : WireEvent) c :
  bounded c -> bounded (state_of (deliver ev c)).
Proof.
  intros Hc. pose proof (updated_bounded ev c Hc) as Hu.
  rewrite deliver_eq. destruct ev as [index| | |k res].
  - destruct (exchange (wire c)); [|exact Hu].
    rewrite onHave_eq. destruct (_ || _); [exact Hu|].
    by apply requestPiece_bounded.
  - destruct (exchange (wire c)); [|exact Hu].
    by apply requestPieces_bounded.
  - exact Hu.
  - destruct (requests (wire c) !! k) as [r|]; [|exact Hc].
    rewrite requestCallback_eq. destruct res as [err|buffer]; [exact Hu|].
    cbv zeta. unfold state_of at 1. cbn [fst snd].
    apply requestPieces_bounded. exact Hu.
Qed.

Lemma run_bounded (evs : list WireEvent) c :
  bounded c -> bounded (state_of (run evs c)).
Proof.
  revert c. induction evs as [|ev evs IH]; intros c Hc; [exact Hc|].
  cbn. unfold bind. pose proof (deliver_bounded ev c Hc) as Hd.
  destruct (deliver ev c) as [[[] c1] t1]. specialize (IH c1 Hd).
  destruct (run evs c1) as [[[] c2] t2]. exact IH.
Qed.

(** C2. A block selection made by [requestPiece] is in endgame mode
    exactly when the wire has no outstanding request and fewer than 30
    pieces are missing; the selection is for the piece asked for. *)
Theorem endgame_iff_idle_and_near_completion c index i (eg : bool) :
  In (storage_selectBlock i eg) (trace_of (requestPiece index c)) ->
  i = index
  /\ (eg = true <->
      length (requests (wire c)) = 0
      /\ (Storage.numMissing (storage c) < 30)%Z).
Proof.
  rewrite requestPiece_eq. intros Hin.
  assert (Hsel : storage_selectBlock i eg
                 = storage_selectBlock index (endGame_of c)).
  { destruct (_ <=? _)%nat; [destruct Hin|].
    destruct (Storage.selectBlock _ _ _) as [[b|] s'];
      cbn in Hin; intuition congruence. }
  injection Hsel as -> ->. split; [reflexivity|].
  unfold endGame_of. rewrite andb_true_iff, Nat.eqb_eq, Z.ltb_lt. tauto.
Qed.

(** C3. Along every sequence of have, unchoke, choke and response events
    on a connection that starts with no outstanding request, the wire never
    holds more than 5 outstanding requests; and [requestPiece] does nothing
    at all on a wire that holds 5 or more. *)
Theorem outstanding_requests_ceiling c (evs : list WireEvent) :
  requests (wire c) = [] ->
  length (requests (wire (state_of (run evs c)))) <= 5
  /\ (forall c' index,
        5 <= length (requests (wire c')) ->
        requestPiece index c' = (tt, c', [])).
Proof.
  intros Hnone. split.
  - apply run_bounded. unfold bounded. rewrite Hnone. cbn.
    unfold MAX_OUTSTANDING_REQUESTS. lia.
  - intros c' index Hfull. rewrite requestPiece_eq.
    destruct (Nat.leb_spec MAX_OUTSTANDING_REQUESTS
                           (length (requests (wire c')))) as [_|Hroom];
      [reflexivity|].
    unfold MAX_OUTSTANDING_REQUESTS in Hroom. lia.
Qed.

(** C7. When the outstanding request [r] fails or times out, the handler
    makes one call, [deselectBlock] on the piece index and offset of [r]:
    no event is emitted, nothing is written and no request is sent on the
    wire, which is left with the other outstanding requests. *)
Theorem failed_request_deselects_only c k (r : Request) (err : Error) :
  requests (wire c) !! k = Some r ->
  deliver (peer_response k (inl err)) c =
  (tt,
   mkConn (Storage.deselectBlock (storage c) (req_index r) (req_offset r))
          (wire (answered k c)),
   [storage_deselectBlock (req_index r) (req_offset r)]).
Proof.
  intros Hr. rewrite deliver_eq, Hr, requestCallback_eq. reflexivity.
Qed.

(** C8. When the outstanding request [r] is answered with [buffer], the
    handler first writes [buffer] to the storage engine at the piece index
    and offset of [r], then runs [requestPieces] on the result. *)
Theorem block_response_written_then_refill c k (r : Request) (buffer : Buffer) :
  requests (wire c) !! k = Some r ->
  let c1 := mkConn (Storage.writeBlock (storage c) (req_index r)
                                       (req_offset r) buffer)
                   (wire (answered k c)) in
  trace_of (deliver (peer_response k (inr buffer)) c)
  = storage_writeBlock (req_index r) (req_offset r) buffer
      :: trace_of (requestPieces c1)
  /\ state_of (deliver (peer_response k (inr buffer)) c)
     = state_of (requestPieces c1).
Proof.
  intros Hr. rewrite deliver_eq, Hr, requestCallback_eq. split; reflexivity.
Qed.

(** *** The order of a fill cycle *)

Lemma for_app (l1 l2 : list nat) (body : nat -> M S unit) c :
  for_ (l1 ++ l2) body c = (for_ l1 body ;;; for_ l2 body) c.
Proof.
  revert c. induction l1 as [|i l1 IH]; intros c.
  - cbn [app for_]. by rewrite bind_ret.
  - cbn [app for_]. rewrite bind_assoc. apply bind_ext.
    intros _ c'. apply IH.
Qed.

(** Indices that are no candidates are passed over without a call. *)
Lemma for_skip (l : list nat) c :
  (forall j, In j l -> candidate c j = false) ->
  for_ l requestPieces_body c = (tt, c, []).
Proof.
  induction l as [|i l IH]; intros Hno; [reflexivity|].
  cbn [for_]. unfold bind. rewrite requestPieces_body_eq.
  rewrite (Hno i) by (left; reflexivity).
  rewrite IH by (intros j Hj; apply Hno; right; exact Hj). reflexivity.
Qed.

Lemma candidate_advertised c index :
  candidate c index = true -> peerPieces (wire c) !! index = Some true.
Proof.
  unfold candidate. destruct (peerPieces (wire c) !! index) as [[]|];
    cbn; congruence.
Qed.

(** One iteration makes no call, or the calls of [requestPiece] on a
    candidate. *)
Lemma requestPieces_body_calls index c :
  let t := trace_of (requestPieces_body index c) in
  (selected t = [] \/
   selected t = [index] /\ peerPieces (wire c) !! index = Some true)
  /\ (requested t = [] \/ requested t = [index]).
Proof.
  rewrite requestPieces_body_eq.
  destruct (candidate c index) eqn:Hcand; [|cbn; auto].
  apply candidate_advertised in Hcand. rewrite requestPiece_eq.
  destruct (_ <=? _)%nat; [cbn; auto|].
  destruct (Storage.selectBlock _ _ _) as [[b|] s']; cbn; auto.
Qed.

Lemma requestPieces_body_same_peer index c :
  same_peer c (state_of (requestPieces_body index c)).
Proof.
  rewrite requestPieces_body_eq.
  destruct (candidate c index);
    [apply requestPiece_same_peer|apply same_peer_refl].
Qed.

Lemma ascending_from_nil a : ascending_from a [].
Proof. split; constructor. Qed.

Lemma ascending_from_cons a l :
  ascending_from (Datatypes.S a) l -> ascending_from a (a :: l).
Proof.
  intros [Hs Hle]. split.
  - constructor; [exact Hs|].
    eapply Forall_impl; [|exact Hle]. cbn. intros; lia.
  - constructor; [lia|]. eapply Forall_impl; [|exact Hle]. cbn. intros; lia.
Qed.

Lemma ascending_from_weaken a l :
  ascending_from (Datatypes.S a) l -> ascending_from a l.
Proof.
  intros [Hs Hle]. split; [exact Hs|].
  eapply Forall_impl; [|exact Hle]. cbn. intros; lia.
Qed.

Lemma for_seq_ascending (n a : nat) c :
  let t := trace_of (for_ (seq a n) requestPieces_body c) in
  ascending_from a (selected t)
  /\ ascending_from a (requested t)
  /\ Forall (fun i => peerPieces (wire c) !! i = Some true) (selected t).
Proof.
  revert a c. induction n as [|n IH]; intros a c.
  - cbn. auto using ascending_from_nil.
  - cbn [seq for_]. unfold bind.
    pose proof (requestPieces_body_calls a c) as [Hsel Hreq].
    pose proof (requestPieces_body_same_peer a c) as (_ & Hpp & _).
    destruct (requestPieces_body a c) as [[[] c1] t1].
    specialize (IH (Datatypes.S a) c1).
    destruct (for_ (seq (Datatypes.S a) n) requestPieces_body c1)
      as [[[] c2] t2].
    cbn in *. destruct IH as (IHs & IHr & IHp).
    rewrite Hpp in IHp. rewrite selected_app, requested_app.
    split; [|split].
    + destruct Hsel as [->|[-> _]]; cbn;
        auto using ascending_from_cons, ascending_from_weaken.
    + destruct Hreq as [->| ->]; cbn;
        auto using ascending_from_cons, ascending_from_weaken.
    + destruct Hsel as [->|[-> Hadv]]; cbn; auto.
Qed.

Lemma requestPieces_body_requested index c :
  requested (trace_of (requestPieces_body index c)) = []
  \/ requested (trace_of (requestPieces_body index c)) = [index]
     /\ peerPieces (wire c) !! index = Some true.
Proof.
  rewrite requestPieces_body_eq.
  destruct (candidate c index) eqn:Hcand; [|cbn; auto].
  apply candidate_advertised in Hcand. rewrite requestPiece_eq.
  destruct (_ <=? _)%nat; [cbn; auto|].
  destruct (Storage.selectBlock _ _ _) as [[b|] s']; cbn; auto.
Qed.

Lemma for_requested_advertised (l : list nat) c :
  Forall (fun i => peerPieces (wire c) !! i = Some true)
         (requested (trace_of (for_ l requestPieces_body c))).
Proof.
  revert c. induction l as [|i l IH]; intros c; [constructor|].
  cbn [for_]. unfold bind.
  pose proof (requestPieces_body_requested i c) as Hreq.
  pose proof (requestPieces_body_same_peer i c) as (_ & Hpp & _).
  destruct (requestPieces_body i c) as [[[] c1] t1].
  specialize (IH c1).
  destruct (for_ l requestPieces_body c1) as [[[] c2] t2].
  cbn in *. rewrite Hpp in IH. rewrite requested_app.
  destruct Hreq as [->|[-> Hadv]]; cbn; auto.
Qed.

Lemma for_seq_below (n a : nat) c :
  let t := trace_of (for_ (seq a n) requestPieces_body c) in
  Forall (fun j => j < a + n) (selected t)
  /\ Forall (fun j => j < a + n) (requested t).
Proof.
  revert a c. induction n as [|n IH]; intros a c; [cbn; auto|].
  cbn [seq for_]. unfold bind.
  pose proof (requestPieces_body_calls a c) as [Hsel Hreq].
  destruct (requestPieces_body a c) as [[[] c1] t1].
  specialize (IH (Datatypes.S a) c1).
  destruct (for_ (seq (Datatypes.S a) n) requestPieces_body c1)
    as [[[] c2] t2].
  cbn in *. destruct IH as [IHs IHr].
  rewrite selected_app, requested_app. split; apply Forall_app; split.
  - destruct Hsel as [->|[-> _]]; repeat constructor; lia.
  - eapply Forall_impl; [|exact IHs]. cbn. intros; lia.
  - destruct Hreq as [->| ->]; repeat constructor; lia.
  - eapply Forall_impl; [|exact IHr]. cbn. intros; lia.
Qed.

Lemma reach_same_peer (i : nat) c : same_peer c (reach i c).
Proof.
  unfold reach. apply (for_preserves (same_peer c)).
  - intros j c' Hc'. eapply same_peer_trans; [exact Hc'|].
    apply requestPieces_body_same_peer.
  - apply same_peer_refl.
Qed.

Lemma candidate_true_iff c index :
  candidate c index = true <->
  peerPieces (wire c) !! index = Some true
  /\ Storage.pieces (storage c) index = true.
Proof.
  unfold candidate.
  destruct (peerPieces (wire c) !! index) as [[]|]; cbn;
    intuition congruence.
Qed.

(** The calls of the iteration at [index]. *)
Lemma requestPieces_body_selected index c (j : nat) :
  In j (selected (trace_of (requestPieces_body index c))) <->
  j = index /\ candidate c index = true
  /\ length (requests (wire c)) < MAX_OUTSTANDING_REQUESTS.
Proof.
  rewrite requestPieces_body_eq.
  destruct (candidate c index); [|cbn; intuition congruence].
  rewrite requestPiece_eq.
  destruct (Nat.leb_spec MAX_OUTSTANDING_REQUESTS (length (requests (wire c))))
    as [Hfull|Hroom]; [cbn; intuition lia|].
  destruct (Storage.selectBlock _ _ _) as [[b|] s']; cbn; intuition congruence.
Qed.

Lemma requestPieces_body_requested_iff index c (j : nat) :
  In j (requested (trace_of (requestPieces_body index c))) <->
  j = index /\ candidate c index = true
  /\ length (requests (wire c)) < MAX_OUTSTANDING_REQUESTS
  /\ is_Some (fst (Storage.selectBlock (storage c) index (endGame_of c))).
Proof.
  rewrite requestPieces_body_eq.
  destruct (candidate c index); [|cbn; intuition congruence].
  rewrite requestPiece_eq.
  destruct (Nat.leb_spec MAX_OUTSTANDING_REQUESTS (length (requests (wire c))))
    as [Hfull|Hroom]; [cbn; intuition lia|].
  destruct (Storage.selectBlock _ _ _) as [[b|] s']; cbn.
  - intuition (try congruence; eauto).
  - split; [tauto|]. intros (_ & _ & _ & [b Hb]). discriminate.
Qed.

(** The trace of a cycle around the iteration at [i]. *)
Lemma cycle_split (i : nat) c :
  i < length (peerPieces (wire c)) ->
  exists t1 t2 : list Call,
    trace_of (requestPieces c)
    = t1 ++ trace_of (requestPieces_body i (reach i c)) ++ t2
    /\ Forall (fun j => j < i) (selected t1)
    /\ Forall (fun j => j < i) (requested t1)
    /\ Forall (le (Datatypes.S i)) (selected t2)
    /\ Forall (le (Datatypes.S i)) (requested t2).
Proof.
  intros Hi. rewrite requestPieces_eq. unfold reach.
  replace (length (peerPieces (wire c)))
    with (i + Datatypes.S (length (peerPieces (wire c)) - Datatypes.S i))
    by lia.
  rewrite seq_app, for_app. cbn [seq plus for_]. unfold bind.
  pose proof (for_seq_below i 0 c) as [Hs1 Hr1].
  destruct (for_ (seq 0 i) requestPieces_body c) as [[[] c1] t1].
  unfold trace_of, state_of in *. cbn [fst snd] in *.
  destruct (requestPieces_body i c1) as [[[] c2] ti]. cbn [fst snd].
  match goal with
  | |- context [for_ (seq (Datatypes.S i) ?n) requestPieces_body c2] =>
      pose proof (for_seq_ascending n (Datatypes.S i) c2)
        as ([_ Hs2] & [_ Hr2] & _);
      destruct (for_ (seq (Datatypes.S i) n) requestPieces_body c2)
        as [[[] c3] t2]
  end.
  cbn [fst snd] in *. exists t1, t2. auto.
Qed.

Lemma cycle_selected_iff c (i : nat) :
  In i (selected (trace_of (requestPieces c))) <-> selectable c i.
Proof.
  pose proof (reach_same_peer i c) as (_ & Hpp & _).
  split.
  - intros Hin.
    assert (Hadv : peerPieces (wire c) !! i = Some true).
    { pose proof (for_seq_ascending (length (peerPieces (wire c))) 0 c)
        as (_ & _ & Hp). rewrite <- requestPieces_eq in Hp.
      rewrite List.Forall_forall in Hp. by apply Hp. }
    pose proof (lookup_lt_Some _ _ _ Hadv) as Hi.
    destruct (cycle_split i c Hi) as (t1 & t2 & Ht & Hs1 & _ & Hs2 & _).
    rewrite Ht, !selected_app, !in_app_iff in Hin.
    rewrite List.Forall_forall in Hs1, Hs2.
    destruct Hin as [Hin|[Hin|Hin]];
      [specialize (Hs1 _ Hin); lia| |specialize (Hs2 _ Hin); lia].
    apply requestPieces_body_selected in Hin as (_ & Hcand & Hroom).
    apply candidate_true_iff in Hcand as [_ Hpieces].
    repeat split; assumption.
  - intros (Hadv & Hpieces & Hroom).
    pose proof (lookup_lt_Some _ _ _ Hadv) as Hi.
    destruct (cycle_split i c Hi) as (t1 & t2 & Ht & _).
    rewrite Ht, !selected_app, !in_app_iff. right. left.
    apply requestPieces_body_selected. split; [reflexivity|].
    split; [|exact Hroom]. apply candidate_true_iff.
    rewrite Hpp. by split.
Qed.

Lemma cycle_requested_iff c (i : nat) :
  In i (requested (trace_of (requestPieces c))) <-> available c i.
Proof.
  pose proof (reach_same_peer i c) as (_ & Hpp & _).
  split.
  - intros Hin.
    assert (Hadv : peerPieces (wire c) !! i = Some true).
    { pose proof (for_requested_advertised
                    (seq 0 (length (peerPieces (wire c)))) c) as Hp.
      rewrite <- requestPieces_eq in Hp.
      rewrite List.Forall_forall in Hp. by apply Hp. }
    pose proof (lookup_lt_Some _ _ _ Hadv) as Hi.
    destruct (cycle_split i c Hi) as (t1 & t2 & Ht & _ & Hr1 & _ & Hr2).
    rewrite Ht, !requested_app, !in_app_iff in Hin.
    rewrite List.Forall_forall in Hr1, Hr2.
    destruct Hin as [Hin|[Hin|Hin]];
      [specialize (Hr1 _ Hin); lia| |specialize (Hr2 _ Hin); lia].
    apply requestPieces_body_requested_iff in Hin
      as (_ & Hcand & Hroom & Hblock).
    apply candidate_true_iff in Hcand as [_ Hpieces].
    repeat split; assumption.
  - intros ((Hadv & Hpieces & Hroom) & Hblock).
    pose proof (lookup_lt_Some _ _ _ Hadv) as Hi.
    destruct (cycle_split i c Hi) as (t1 & t2 & Ht & _).
    rewrite Ht, !requested_app, !in_app_iff. right. left.
    apply requestPieces_body_requested_iff. split; [reflexivity|].
    split; [|by split]. apply candidate_true_iff.
    rewrite Hpp. by split.
Qed.

(** With room on the wire, the cycle starts with the lowest-indexed
    candidate. *)
Lemma fill_cycle_first_call c (i : nat) :
  candidate c i = true ->
  (forall j, j < i -> candidate c j = false) ->
  length (requests (wire c)) < MAX_OUTSTANDING_REQUESTS ->
  exists rest,
    trace_of (requestPieces c)
    = storage_selectBlock i (endGame_of c)
        :: match fst (Storage.selectBlock (storage c) i (endGame_of c)) with
           | Some b =>
               [wire_request (remoteAddress (wire c)) i
                             (block_offset b) (block_length b)]
           | None => []
           end
        ++ rest.
Proof.
  rewrite requestPieces_eq. intros Hcand Hlow Hroom.
  pose proof (candidate_advertised c i Hcand) as Hadv.
  apply lookup_lt_Some in Hadv.
  replace (length (peerPieces (wire c)))
    with (i + Datatypes.S (length (peerPieces (wire c)) - Datatypes.S i))
    by lia.
  rewrite seq_app, for_app. unfold bind at 1.
  rewrite for_skip by (intros j Hj; apply Hlow; apply in_seq in Hj; lia).
  cbn [seq for_ plus]. unfold bind.
  rewrite requestPieces_body_eq, Hcand, requestPiece_eq.
  destruct (Nat.leb_spec MAX_OUTSTANDING_REQUESTS
                         (length (requests (wire c)))) as [Hfull|_]; [lia|].
  destruct (Storage.selectBlock _ _ _) as [[b|] s'];
    destruct (for_ (seq (Datatypes.S i) _) _ _) as [[[] c2] t2]; cbn; eauto.
Qed.

(** The lowest available piece heads the requests of the cycle. *)
Lemma fill_cycle_first_request c (i : nat) :
  available c i ->
  (forall j, j < i -> ~ available c j) ->
  exists rest, requested (trace_of (requestPieces c)) = i :: rest.
Proof.
  intros Hav Hlow.
  pose proof (for_seq_ascending (length (peerPieces (wire c))) 0 c)
    as (_ & [Hr _] & _). rewrite <- requestPieces_eq in Hr. cbv zeta in Hr.
  pose proof (proj2 (cycle_requested_iff c i) Hav) as Hin.
  pose proof (fun x => proj1 (cycle_requested_iff c x)) as Hall.
  destruct (requested (trace_of (requestPieces c))) as [|x rest];
    [destruct Hin|].
  destruct (Nat.eq_dec x i) as [->|Hne]; [eauto|]. exfalso.
  destruct Hin as [Hx|Hin]; [congruence|].
  inversion Hr as [|? ? _ Hlt]; subst.
  rewrite List.Forall_forall in Hlt.
  apply (Hlow x); [by apply Hlt|]. apply Hall. by left.
Qed.

(** C9. In a fill cycle the pieces on which a block is selected, and the
    pieces requested on the wire, are taken in strictly ascending index
    order.  A block is selected on a piece exactly when, as the loop
    reaches it, the peer advertises the piece, the storage engine holds it
    and the wire has room; the piece is requested exactly when the storage
    engine then has a block of it to hand out.  So the lowest-indexed
    available piece is the first one requested; and when the wire has
    room, the cycle starts with the lowest-indexed candidate piece: its
    block selection is the first call, followed by the request of the
    block the storage engine returned. *)
Theorem fill_cycle_ascending c :
  let t := trace_of (requestPieces c) in
  StronglySorted lt (selected t)
  /\ StronglySorted lt (requested t)
  /\ Forall (fun i => peerPieces (wire c) !! i = Some true) (selected t)
  /\ (forall i,
        candidate c i = true ->
        (forall j, j < i -> candidate c j = false) ->
        length (requests (wire c)) < MAX_OUTSTANDING_REQUESTS ->
        exists rest,
          t = storage_selectBlock i (endGame_of c)
                :: match fst (Storage.selectBlock (storage c) i (endGame_of c)) with
                   | Some b =>
                       [wire_request (remoteAddress (wire c)) i
                                     (block_offset b) (block_length b)]
                   | None => []
                   end
                ++ rest)
  /\ (forall i,
        In i (selected t) <->
        peerPieces (wire c) !! i = Some true
        /\ Storage.pieces (storage (reach i c)) i = true
        /\ length (requests (wire (reach i c))) < 5)
  /\ (forall i,
        In i (requested t) <->
        (peerPieces (wire c) !! i = Some true
         /\ Storage.pieces (storage (reach i c)) i = true
         /\ length (requests (wire (reach i c))) < 5)
        /\ is_Some (fst (Storage.selectBlock (storage (reach i c)) i
                                             (endGame_of (reach i c)))))
  /\ (forall i,
        available c i ->
        (forall j, j < i -> ~ available c j) ->
        exists rest, requested t = i :: rest).
Proof.
  cbv zeta.
  pose proof (for_seq_ascending (length (peerPieces (wire c))) 0 c)
    as ([Hs _] & [Hr _] & Hp).
  rewrite <- requestPieces_eq in Hs, Hr, Hp.
  split; [exact Hs|]. split; [exact Hr|]. split; [exact Hp|].
  split; [apply fill_cycle_first_call|].
  split; [apply cycle_selected_iff|].
  split; [apply cycle_requested_iff|].
  apply fill_cycle_first_request.
Qed.

(** *** Incoming requests *)

(** C4. An incoming request for more than 128 KiB (131072 bytes) destroys
    the wire: nothing is scheduled, nothing is read and the requester's
    callback is not called.  A request for at most 128 KiB makes no call by
    itself and schedules a read; when that runs, it calls [readBlock] and
    then the requester's callback, with the bytes when there are some and
    with an error otherwise, and does not destroy the wire. *)
Theorem incoming_request_served_or_rejected c index (offset len : Z) :
  ((len > 131072)%Z ->
   onRequest index offset len c
   = (None, c, [wire_destroy (remoteAddress (wire c))]))
  /\ ((len <= 131072)%Z ->
      onRequest index offset len c
      = (Some (tick_read index offset len), c, [])
      /\ forall c',
           runTick (tick_read index offset len) c'
           = (tt, c',
              [storage_readBlock index offset len;
               cb (match Storage.readBlock (storage c') index offset len with
                   | Some block => inr block
                   | None => inl "requested block not available"
                   end)])).
Proof.
  unfold onRequest, MAX_BLOCK_LENGTH. split; intros Hlen.
  - destruct (Z.gtb_spec len (128 * 1024)) as [_|Hle]; [reflexivity|lia].
  - destruct (Z.gtb_spec len (128 * 1024)) as [Hgt|_]; [lia|].
    split; [reflexivity|]. intros c'.
    unfold runTick, bind, do_readBlock.
    destruct (Storage.readBlock _ _ _ _); reflexivity.
Qed.

End SchedulerProperties.

Section SessionProperties.
Context {S : Type} `{Storage.Engine S} `{Parser}.
Implicit Types (self : Torrent.t S) (candidate : Buffer).

Lemma forEach_wire_no_event (st : S) (ws : list Wire) (ev : Event) :
  ~ In (emit ev) (snd (Torrent.forEach_wire st ws))
  /\ metadata_events (snd (Torrent.forEach_wire st ws)) = 0.
Proof.
  induction ws as [|w ws [IHin IHn]]; [cbn; tauto|].
  cbn. destruct (Torrent.forEach_wire st ws) as [ws' t]. cbn in *.
  split; [|exact IHn]. intros [Hb|[Hi|Hin]]; [discriminate..|tauto].
Qed.

(** [_onMetadata] on a session without metadata, case by case. *)
Lemma _onMetadata_first self candidate :
  Torrent.metadata self = None ->
  Torrent._onMetadata self candidate =
  match parseTorrent candidate with
  | inl err =>
      (Torrent.mk (Torrent.infoHash self) (Torrent.name self)
                  (Torrent.files self) (Some candidate)
                  (Torrent.parsedTorrent self) (Torrent.storage self)
                  (Torrent.swarm self),
       [emit (ev_error err)])
  | inr parsed =>
      let st := Storage.new parsed in
      let wires := Torrent.forEach_wire st <$> Torrent.swarm self in
      (Torrent.mk (Some (pt_infoHash parsed)) (Some (pt_name parsed))
                  (Torrent.files self ++ Storage.files st) (Some candidate)
                  (Some parsed) (Some st) (fst <$> wires),
       [storage_new parsed] ++ default [] (snd <$> wires)
         ++ [emit ev_metadata])
  end.
Proof.
  intros Hnone. unfold Torrent._onMetadata. rewrite Hnone.
  destruct (parseTorrent candidate) as [err|parsed]; [reflexivity|].
  destruct (Torrent.swarm self) as [ws|]; [|reflexivity].
  cbn. destruct (Torrent.forEach_wire _ ws) as [ws' t]. reflexivity.
Qed.

Lemma _onMetadata_again self candidate :
  is_Some (Torrent.metadata self) ->
  Torrent._onMetadata self candidate = (self, []).
Proof.
  intros [m Hm]. unfold Torrent._onMetadata. by rewrite Hm.
Qed.

(** Whatever the candidate, the session holds metadata afterwards. *)
Lemma _onMetadata_sets_metadata self candidate :
  is_Some (Torrent.metadata (fst (Torrent._onMetadata self candidate))).
Proof.
  destruct (Torrent.metadata self) as [m|] eqn:Hm.
  - rewrite _onMetadata_again by eauto. cbn. eauto.
  - rewrite _onMetadata_first by exact Hm.
    destruct (parseTorrent candidate); cbn; eauto.
Qed.

Lemma deliveries_again self (candidates : list Buffer) :
  is_Some (Torrent.metadata self) ->
  Torrent.deliveries self candidates = (self, []).
Proof.
  intros Hm. induction candidates as [|candidate rest IH]; [reflexivity|].
  cbn. rewrite _onMetadata_again by exact Hm. by rewrite IH.
Qed.

Lemma _onMetadata_one_event self candidate :
  metadata_events (snd (Torrent._onMetadata self candidate)) <= 1.
Proof.
  destruct (Torrent.metadata self) as [m|] eqn:Hm.
  - rewrite _onMetadata_again by eauto. cbn. lia.
  - rewrite _onMetadata_first by exact Hm.
    destruct (parseTorrent candidate) as [err|parsed]; cbn; [lia|].
    rewrite metadata_events_app.
    destruct (Torrent.swarm self) as [ws|]; cbn; [|lia].
    pose proof (forEach_wire_no_event (Storage.new parsed) ws ev_metadata)
      as [_ ->]. lia.
Qed.

(** C1, as the code has it. A session without metadata accepts the first
    candidate exactly when the candidate parses.  It does not compare the
    candidate's fingerprint with the one it declared: it takes the
    candidate's fingerprint, descriptor and files as its own and builds its
    storage engine from the candidate. *)
Theorem first_candidate_accepted_iff_it_parses self candidate :
  Torrent.metadata self = None ->
  (accepted self candidate <->
   exists parsed, parseTorrent candidate = inr parsed)
  /\ (forall parsed,
        parseTorrent candidate = inr parsed ->
        let self' := fst (Torrent._onMetadata self candidate) in
        Torrent.infoHash self' = Some (pt_infoHash parsed)
        /\ Torrent.parsedTorrent self' = Some parsed
        /\ Torrent.storage self' = Some (Storage.new parsed)
        /\ Torrent.files self'
           = Torrent.files self ++ Storage.files (Storage.new parsed)).
Proof.
  intros Hnone. unfold accepted. rewrite _onMetadata_first by exact Hnone.
  split.
  - destruct (parseTorrent candidate) as [err|parsed]; cbn.
    + split; [intros [Hin|[]]; discriminate|intros [p Hp]; discriminate].
    + split; [eauto|]. intros _. right. apply in_app_iff. right. by left.
  - intros parsed ->. cbn. auto.
Qed.

(** C5 on the code. A candidate that fails to parse is reported as an
    'error' event, but it stays in [self.metadata]: every later candidate
    is dropped by the guard at the top of [_onMetadata], and the session
    keeps the descriptor and the storage engine it had, that is, none. *)
Theorem corrupt_candidate_ends_bootstrap self candidate (err : Error)
        (later : Buffer) :
  Torrent.metadata self = None ->
  parseTorrent candidate = inl err ->
  let self1 := fst (Torrent._onMetadata self candidate) in
  snd (Torrent._onMetadata self candidate) = [emit (ev_error err)]
  /\ Torrent._onMetadata self1 later = (self1, [])
  /\ Torrent.parsedTorrent self1 = Torrent.parsedTorrent self
  /\ Torrent.storage self1 = Torrent.storage self.
Proof.
  intros Hnone Herr. cbv zeta. split; [|split].
  - rewrite _onMetadata_first by exact Hnone. by rewrite Herr.
  - apply _onMetadata_again, _onMetadata_sets_metadata.
  - rewrite _onMetadata_first by exact Hnone. by rewrite Herr.
Qed.

Lemma deliveries_first self (first : Buffer) (rest : list Buffer) :
  Torrent.deliveries self (first :: rest) = Torrent._onMetadata self first.
Proof.
  cbn. pose proof (_onMetadata_sets_metadata self first) as Hset.
  destruct (Torrent._onMetadata self first) as [self1 t1].
  rewrite (deliveries_again self1 rest Hset). by rewrite app_nil_r.
Qed.

(** C6. The transition to descriptor-ready happens exactly once.  When the
    first candidate delivered to a session without metadata parses, the
    deliveries of it and of any further candidates emit 'metadata' exactly
    once and leave the session with the descriptor, the storage engine, the
    fingerprint and the files of that first candidate.  Once a metadata
    delivery has been processed, every later delivery returns the session
    as it is and makes no call, so descriptor, storage, files and
    fingerprint stay; and however many candidates are delivered, 'metadata'
    is never emitted twice. *)
Theorem later_metadata_deliveries_are_no_ops self (first later : Buffer)
        (candidates : list Buffer) :
  let self1 := fst (Torrent._onMetadata self first) in
  Torrent._onMetadata self1 later = (self1, [])
  /\ Torrent.deliveries self1 candidates = (self1, [])
  /\ metadata_events (snd (Torrent.deliveries self candidates)) <= 1
  /\ (forall parsed,
        Torrent.metadata self = None ->
        parseTorrent first = inr parsed ->
        metadata_events
          (snd (Torrent.deliveries self (first :: candidates))) = 1
        /\ fst (Torrent.deliveries self (first :: candidates)) = self1
        /\ Torrent.parsedTorrent self1 = Some parsed
        /\ Torrent.storage self1 = Some (Storage.new parsed)
        /\ Torrent.infoHash self1 = Some (pt_infoHash parsed)
        /\ Torrent.files self1
           = Torrent.files self ++ Storage.files (Storage.new parsed)).
Proof.
  cbv zeta. split; [|split; [|split]].
  - apply _onMetadata_again, _onMetadata_sets_metadata.
  - apply deliveries_again, _onMetadata_sets_metadata.
  - destruct candidates as [|candidate rest]; [cbn; lia|].
    rewrite deliveries_first. apply _onMetadata_one_event.
  - intros parsed Hnone Hparsed. rewrite deliveries_first.
    rewrite _onMetadata_first by exact Hnone. rewrite Hparsed. cbn.
    split; [|repeat split].
    rewrite metadata_events_app. cbn.
    destruct (Torrent.swarm self) as [ws|]; cbn; [|reflexivity].
    pose proof (forEach_wire_no_event (Storage.new parsed) ws ev_metadata)
      as [_ ->]. reflexivity.
Qed.

(** C10. Without a parsed descriptor and without a storage engine the
    accessors [length], [progress] and [downloaded] all return 0. *)
Theorem accessors_default_without_descriptor self :
  Torrent.parsedTorrent self = None ->
  Torrent.storage self = None ->
  Torrent.length self = 0%Z
  /\ Torrent.progress self = int 0
  /\ Torrent.downloaded self = 0%Z.
Proof.
  intros Hparsed Hstorage.
  unfold Torrent.length, Torrent.progress, Torrent.downloaded.
  by rewrite Hparsed, Hstorage.
Qed.

End SessionProperties.

(** * The properties on the concrete inputs *)

Section OnExamples.
Local Existing Instance Example.engine.
Local Existing Instance Example.parser.

(** C1 as stated fails: the session that declared the fingerprint
    [aaaa...] accepts a candidate whose fingerprint is another one. *)
Lemma declared_fingerprint_not_checked :
  ~ (Torrent.metadata Example.declared = None ->
     validated Example.declared Example.good).
Proof.
  intros Hclaim. specialize (Hclaim eq_refl).
  assert (Haccepted : accepted Example.declared Example.good).
  { vm_compute. right. right. right. left. reflexivity. }
  specialize (Hclaim Haccepted). vm_compute in Hclaim. discriminate Hclaim.
Qed.

Lemma first_candidate_accepted_iff_it_parses_witness :
  Torrent.metadata Example.declared = None
  /\ accepted Example.declared Example.good
  /\ Torrent.infoHash (fst (Torrent._onMetadata Example.declared Example.good))
     = Some "d4:name6:leavese".
Proof.
  pose proof (first_candidate_accepted_iff_it_parses
                Example.declared Example.good eq_refl) as [Hiff Hstate].
  split; [reflexivity|]. split.
  - apply Hiff. eexists. reflexivity.
  - apply (Hstate _ eq_refl).
Defined.

Lemma endgame_iff_idle_and_near_completion_witness :
  In (storage_selectBlock 0 true) (trace_of (requestPiece 0 Example.conn))
  /\ (true = true <->
      length (requests (wire Example.conn)) = 0
      /\ (Storage.numMissing (storage Example.conn) < 30)%Z).
Proof.
  assert (Hin : In (storage_selectBlock 0 true)
                   (trace_of (requestPiece 0 Example.conn)))
    by (left; reflexivity).
  split; [exact Hin|].
  apply (endgame_iff_idle_and_near_completion Example.conn 0 0 true Hin).
Defined.

Lemma outstanding_requests_ceiling_witness :
  requests (wire Example.conn) = []
  /\ length (requests (wire (state_of
              (run [peer_unchoke; peer_have 1;
                    peer_response 0 (inr (list_byte_of_string "aaaa"));
                    peer_response 1 (inl "request has timed out")]
                   Example.conn)))) <= 5
  /\ requestPiece 0 Example.busy = (tt, Example.busy, []).
Proof.
  split; [reflexivity|].
  pose proof (outstanding_requests_ceiling Example.conn
                [peer_unchoke; peer_have 1;
                 peer_response 0 (inr (list_byte_of_string "aaaa"));
                 peer_response 1 (inl "request has timed out")]
                eq_refl) as [Hle Hfull].
  split; [exact Hle|]. apply Hfull. cbn. lia.
Defined.

Lemma incoming_request_served_or_rejected_witness :
  (131073 > 131072)%Z
  /\ onRequest 0 0 131073 Example.conn
     = (None, Example.conn, [wire_destroy "10.0.0.2:6881"])
  /\ (16384 <= 131072)%Z
  /\ onRequest 0 0 16384 Example.conn
     = (Some (tick_read 0 0 16384), Example.conn, [])
  /\ runTick (tick_read 0 0 16384) Example.conn
     = (tt, Example.conn,
        [storage_readBlock 0 0 16384;
         cb (inl "requested block not available")]).
Proof.
  assert (Hbig : (131073 > 131072)%Z) by lia.
  assert (Hok : (16384 <= 131072)%Z) by lia.
  split; [exact Hbig|]. split.
  - apply (proj1 (incoming_request_served_or_rejected
                    Example.conn 0 0 131073) Hbig).
  - split; [exact Hok|].
    destruct (proj2 (incoming_request_served_or_rejected
                       Example.conn 0 0 16384) Hok) as [Hsched Htick].
    split; [exact Hsched|]. apply (Htick Example.conn).
Defined.

Lemma corrupt_candidate_ends_bootstrap_witness :
  Torrent.metadata Example.fresh = None
  /\ parseTorrent Example.corrupt = inl "Invalid data: Missing delimiter"
  /\ snd (Torrent._onMetadata Example.fresh Example.corrupt)
     = [emit (ev_error "Invalid data: Missing delimiter")]
  /\ Torrent.deliveries Example.fresh [Example.corrupt; Example.good]
     = (fst (Torrent._onMetadata Example.fresh Example.corrupt),
        [emit (ev_error "Invalid data: Missing delimiter")])
  /\ Torrent.storage
       (fst (Torrent.deliveries Example.fresh [Example.corrupt; Example.good]))
     = None.
Proof.
  assert (Hnone : Torrent.metadata Example.fresh = None) by reflexivity.
  assert (Herr : parseTorrent Example.corrupt
                 = inl "Invalid data: Missing delimiter") by reflexivity.
  destruct (corrupt_candidate_ends_bootstrap
              Example.fresh Example.corrupt
              "Invalid data: Missing delimiter" Example.good
              Hnone Herr) as (Htrace & Hlater & _ & Hstorage).
  split; [exact Hnone|]. split; [exact Herr|]. split; [exact Htrace|].
  split; [reflexivity|]. reflexivity.
Defined.

Lemma failed_request_deselects_only_witness :
  requests (wire Example.busy) !! 2 = Some (mkRequest 0 0 16384)
  /\ trace_of (deliver (peer_response 2 (inl "request has timed out"))
                       Example.busy)
     = [storage_deselectBlock 0 0]
  /\ length (requests (wire (state_of
              (deliver (peer_response 2 (inl "request has timed out"))
                       Example.busy)))) = 4.
Proof.
  split; [reflexivity|].
  rewrite (failed_request_deselects_only
             Example.busy 2 (mkRequest 0 0 16384) "request has timed out"
             eq_refl).
  split; reflexivity.
Defined.

Lemma block_response_written_then_refill_witness :
  requests (wire Example.busy) !! 0 = Some (mkRequest 0 0 16384)
  /\ trace_of (deliver (peer_response 0 (inr (list_byte_of_string "aaaa")))
                       Example.busy)
     = [storage_writeBlock 0 0 (list_byte_of_string "aaaa");
        storage_selectBlock 0 false;
        storage_selectBlock 1 false;
        wire_request "10.0.0.2:6881" 1 0 16384].
Proof.
  split; [reflexivity|].
  rewrite (proj1 (block_response_written_then_refill
                    Example.busy 0 (mkRequest 0 0 16384)
                    (list_byte_of_string "aaaa") eq_refl)).
  reflexivity.
Defined.

Lemma fill_cycle_ascending_witness :
  candidate Example.conn 0 = true
  /\ (forall j, j < 0 -> candidate Example.conn j = false)
  /\ length (requests (wire Example.conn)) < MAX_OUTSTANDING_REQUESTS
  /\ selected (trace_of (requestPieces Example.conn)) = [0; 1]
  /\ (exists rest,
        trace_of (requestPieces Example.conn)
        = storage_selectBlock 0 true
            :: wire_request "10.0.0.2:6881" 0 0 16384 :: rest)
  /\ available Example.conn 0
  /\ (forall j, j < 0 -> ~ available Example.conn j)
  /\ (exists rest, requested (trace_of (requestPieces Example.conn))
                   = 0 :: rest)
  /\ In 1 (requested (trace_of (requestPieces Example.conn))).
Proof.
  assert (Hcand : candidate Example.conn 0 = true) by reflexivity.
  assert (Hlow : forall j, j < 0 -> candidate Example.conn j = false)
    by (intros j Hj; lia).
  assert (Hroom : length (requests (wire Example.conn))
                  < MAX_OUTSTANDING_REQUESTS)
    by (unfold MAX_OUTSTANDING_REQUESTS; cbn; lia).
  assert (Hav : available Example.conn 0).
  { split; [split; [reflexivity|split; [reflexivity|vm_compute; lia]]|].
    eexists. reflexivity. }
  assert (Hnone : forall j, j < 0 -> ~ available Example.conn j)
    by (intros j Hj; lia).
  assert (Hone : (peerPieces (wire Example.conn) !! 1 = Some true
                  /\ Storage.pieces (storage (reach 1 Example.conn)) 1 = true
                  /\ length (requests (wire (reach 1 Example.conn))) < 5)
                 /\ is_Some (fst (Storage.selectBlock
                                    (storage (reach 1 Example.conn)) 1
                                    (endGame_of (reach 1 Example.conn))))).
  { split; [split; [reflexivity|split; [reflexivity|vm_compute; lia]]|].
    eexists. reflexivity. }
  destruct (fill_cycle_ascending Example.conn)
    as (_ & _ & _ & Hfirst & _ & Hreq & Hlowest).
  split; [exact Hcand|]. split; [exact Hlow|]. split; [exact Hroom|].
  split; [reflexivity|].
  split; [apply (Hfirst 0 Hcand Hlow Hroom)|].
  split; [exact Hav|]. split; [exact Hnone|].
  split; [apply (Hlowest 0 Hav Hnone)|].
  apply (proj2 (Hreq 1) Hone).
Defined.

Lemma accessors_default_without_descriptor_witness :
  Torrent.parsedTorrent Example.fresh = None
  /\ Torrent.storage Example.fresh = None
  /\ Torrent.length Example.fresh = 0%Z
  /\ Torrent.progress Example.fresh = int 0
  /\ Torrent.downloaded Example.fresh = 0%Z.
Proof.
  split; [reflexivity|]. split; [reflexivity|].
  apply (accessors_default_without_descriptor Example.fresh eq_refl eq_refl).
Defined.

Lemma later_metadata_deliveries_are_no_ops_witness :
  Torrent.metadata Example.fresh = None
  /\ parseTorrent Example.good = inr Example.descriptor
  /\ metadata_events
       (snd (Torrent.deliveries Example.fresh
               [Example.good; Example.corrupt; Example.good])) = 1
  /\ Torrent.storage
       (fst (Torrent.deliveries Example.fresh
               [Example.good; Example.corrupt; Example.good]))
     = Some (Storage.new Example.descriptor)
  /\ Torrent._onMetadata
       (fst (Torrent._onMetadata Example.fresh Example.good)) Example.good
     = (fst (Torrent._onMetadata Example.fresh Example.good), []).
Proof.
  assert (Hnone : Torrent.metadata Example.fresh = None) by reflexivity.
  assert (Hparsed : parseTorrent Example.good = inr Example.descriptor)
    by reflexivity.
  destruct (later_metadata_deliveries_are_no_ops
              Example.fresh Example.good Example.good
              [Example.corrupt; Example.good])
    as (Hnoop & _ & _ & Honce).
  destruct (Honce Example.descriptor Hnone Hparsed)
    as (Hone & Hstate & _ & Hstorage & _).
  split; [exact Hnone|]. split; [exact Hparsed|]. split; [exact Hone|].
  split; [|exact Hnoop]. rewrite Hstate. exact Hstorage.
Defined.

End OnExamples.

(** * Further properties of the scheduler *)

Lemma sent_app t1 t2 : sent (t1 ++ t2) = sent t1 ++ sent t2.
Proof.
  induction t1 as [|e t1 IH]; [reflexivity|].
  destruct e; simpl; rewrite ?IH; reflexivity.
Qed.

Lemma requested_sent t : requested t = map req_index (sent t).
Proof.
  induction t as [|e t IH]; [reflexivity|].
  destruct e; simpl; rewrite ?IH; reflexivity.
Qed.

Lemma endgame_selections_app t1 t2 :
  endgame_selections (t1 ++ t2)
  = endgame_selections t1 ++ endgame_selections t2.
Proof.
  induction t1 as [|e t1 IH]; [reflexivity|].
  destruct e as [| ? []| | | | | | | | |]; simpl; rewrite ?IH; reflexivity.
Qed.

Lemma StronglySorted_lt_NoDup (l : list nat) : StronglySorted lt l -> NoDup l.
Proof.
  induction 1 as [|a l Hs IH Hall]; constructor; [|exact IH].
  intros Hin. rewrite List.Forall_forall in Hall.
  apply list_elem_of_In in Hin. specialize (Hall a Hin). lia.
Qed.

Section MoreSchedulerProperties.
Context {S : Type} `{Storage.Engine S}.
Implicit Types (c : Conn S) (index k : nat).

(** X1. A HAVE from a peer that chokes us, or for a piece the storage
    engine does not know, only sets the peer's bit: no block is selected,
    nothing is requested and the storage engine is not touched. *)
Theorem have_ignored_when_choked_or_unknown c index :
  peerChoking (wire c) = true \/ Storage.pieces (storage c) index = false ->
  deliver (peer_have index) c = (tt, updated (peer_have index) c, []).
Proof.
  intros Hskip. rewrite deliver_eq.
  destruct (exchange (wire c)); [|reflexivity].
  rewrite onHave_eq. unfold updated. cbn [storage wire wire_update peerChoking].
  destruct Hskip as [-> | ->]; [reflexivity|].
  by rewrite orb_true_r.
Qed.

Lemma requestPiece_sent c index :
  requests (wire (state_of (requestPiece index c)))
  = requests (wire c) ++ sent (trace_of (requestPiece index c)).
Proof.
  rewrite requestPiece_eq.
  destruct (_ <=? _)%nat; [cbn; by rewrite app_nil_r|].
  destruct (Storage.selectBlock _ _ _) as [[b|] s']; cbn;
    [reflexivity|by rewrite app_nil_r].
Qed.

Lemma requestPieces_body_sent index c :
  requests (wire (state_of (requestPieces_body index c)))
  = requests (wire c) ++ sent (trace_of (requestPieces_body index c)).
Proof.
  rewrite requestPieces_body_eq.
  destruct (candidate c index); [apply requestPiece_sent|].
  cbn. by rewrite app_nil_r.
Qed.

Lemma for_sent (l : list nat) c :
  requests (wire (state_of (for_ l requestPieces_body c)))
  = requests (wire c) ++ sent (trace_of (for_ l requestPieces_body c)).
Proof.
  revert c. induction l as [|i l IH]; intros c;
    [cbn; by rewrite app_nil_r|].
  cbn [for_]. unfold bind.
  pose proof (requestPieces_body_sent i c) as Hb.
  destruct (requestPieces_body i c) as [[[] c1] t1].
  specialize (IH c1).
  destruct (for_ l requestPieces_body c1) as [[[] c2] t2].
  cbn in *. rewrite IH, Hb, sent_app. by rewrite app_assoc.
Qed.

(** The ceiling, from any number of outstanding requests. *)
Lemma requestPiece_ceiling (n : nat) c index :
  length (requests (wire c)) <= Nat.max MAX_OUTSTANDING_REQUESTS n ->
  length (requests (wire (state_of (requestPiece index c))))
  <= Nat.max MAX_OUTSTANDING_REQUESTS n.
Proof.
  intros Hc. rewrite requestPiece_eq.
  destruct (Nat.leb_spec MAX_OUTSTANDING_REQUESTS (length (requests (wire c))))
    as [Hfull|Hroom]; [exact Hc|].
  destruct (Storage.selectBlock _ _ _) as [[b|] s']; cbn; [|exact Hc].
  rewrite length_app. cbn. lia.
Qed.

Lemma requestPieces_body_ceiling (n : nat) index c :
  length (requests (wire c)) <= Nat.max MAX_OUTSTANDING_REQUESTS n ->
  length (requests (wire (state_of (requestPieces_body index c))))
  <= Nat.max MAX_OUTSTANDING_REQUESTS n.
Proof.
  intros Hc. rewrite requestPieces_body_eq.
  destruct (candidate c index); [by apply requestPiece_ceiling|exact Hc].
Qed.

(** X2. What a fill cycle sends becomes the tail of [wire.requests]; it
    sends no more requests than the wire has room for under the ceiling of
    5, at most one per piece however many blocks the piece misses, and only
    for pieces the peer advertises. *)
Theorem fill_cycle_sends_one_block_per_piece c :
  let r := requestPieces c in
  requests (wire (state_of r)) = requests (wire c) ++ sent (trace_of r)
  /\ length (sent (trace_of r)) <= 5 - length (requests (wire c))
  /\ NoDup (map req_index (sent (trace_of r)))
  /\ Forall (fun rq => peerPieces (wire c) !! req_index rq = Some true)
            (sent (trace_of r)).
Proof.
  cbv zeta. rewrite requestPieces_eq.
  set (l := seq 0 (length (peerPieces (wire c)))).
  pose proof (for_sent l c) as Hsent.
  split; [exact Hsent|]. split; [|split].
  - assert (Hmax : length (requests (wire (state_of
                     (for_ l requestPieces_body c))))
                   <= Nat.max MAX_OUTSTANDING_REQUESTS
                              (length (requests (wire c)))).
    { apply (for_preserves
               (fun c' => length (requests (wire c'))
                          <= Nat.max MAX_OUTSTANDING_REQUESTS
                                     (length (requests (wire c))))).
      - intros i c' Hc'. by apply requestPieces_body_ceiling.
      - lia. }
    rewrite Hsent, length_app in Hmax.
    unfold MAX_OUTSTANDING_REQUESTS in Hmax. lia.
  - rewrite <- requested_sent. apply StronglySorted_lt_NoDup.
    pose proof (for_seq_ascending (length (peerPieces (wire c))) 0 c)
      as (_ & [Hr _] & _). exact Hr.
  - pose proof (for_requested_advertised l c) as Hadv.
    rewrite requested_sent in Hadv. by apply Forall_map in Hadv.
Qed.

Lemma requestPiece_busy c index :
  requests (wire c) <> [] ->
  endgame_selections (trace_of (requestPiece index c)) = []
  /\ requests (wire (state_of (requestPiece index c))) <> [].
Proof.
  intros Hbusy. rewrite requestPiece_eq.
  assert (Heg : endGame_of c = false).
  { unfold endGame_of. destruct (requests (wire c)); [congruence|reflexivity]. }
  rewrite Heg. destruct (_ <=? _)%nat; [cbn; auto|].
  destruct (Storage.selectBlock _ _ _) as [[b|] s']; cbn; [|auto].
  split; [reflexivity|]. intros Hnil. by apply app_eq_nil in Hnil as [_ ?].
Qed.

Lemma for_busy (l : list nat) c :
  requests (wire c) <> [] ->
  endgame_selections (trace_of (for_ l requestPieces_body c)) = [].
Proof.
  revert c. induction l as [|i l IH]; intros c Hbusy; [reflexivity|].
  cbn [for_]. unfold bind.
  assert (Hb : endgame_selections (trace_of (requestPieces_body i c)) = []
               /\ requests (wire (state_of (requestPieces_body i c))) <> []).
  { rewrite requestPieces_body_eq.
    destruct (candidate c i); [by apply requestPiece_busy|cbn; auto]. }
  destruct (requestPieces_body i c) as [[[] c1] t1]. cbn in Hb.
  destruct Hb as [Ht1 Hc1]. specialize (IH c1 Hc1).
  destruct (for_ l requestPieces_body c1) as [[[] c2] t2]. cbn in *.
  by rewrite endgame_selections_app, Ht1, IH.
Qed.

Lemma for_after_first_request (l : list nat) c :
  endgame_selections
    (after_first_request (trace_of (for_ l requestPieces_body c))) = [].
Proof.
  revert c. induction l as [|i l IH]; intros c; [reflexivity|].
  cbn [for_]. unfold bind. rewrite requestPieces_body_eq.
  destruct (candidate c i).
  - rewrite requestPiece_eq. destruct (_ <=? _)%nat.
    + specialize (IH c).
      destruct (for_ l requestPieces_body c) as [[[] c2] t2]. exact IH.
    + destruct (Storage.selectBlock _ _ _) as [[b|] s'].
      * match goal with
        | |- context [for_ l requestPieces_body ?c1] =>
            pose proof (for_busy l c1) as Hrest;
            destruct (for_ l requestPieces_body c1) as [[[] c2] t2]
        end.
        cbn in *. apply Hrest. intros Hnil.
        by apply app_eq_nil in Hnil as [_ ?].
      * match goal with
        | |- context [for_ l requestPieces_body ?c1] =>
            specialize (IH c1);
            destruct (for_ l requestPieces_body c1) as [[[] c2] t2]
        end.
        exact IH.
  - specialize (IH c).
    destruct (for_ l requestPieces_body c) as [[[] c2] t2]. exact IH.
Qed.

(** X3. In a fill cycle, no block is selected in endgame mode once a
    request has been sent; and on a wire that already has an outstanding
    request the whole cycle selects no block in endgame mode. *)
Theorem fill_cycle_endgame_before_first_request c :
  endgame_selections (after_first_request (trace_of (requestPieces c))) = []
  /\ (requests (wire c) <> [] ->
      endgame_selections (trace_of (requestPieces c)) = []).
Proof.
  rewrite requestPieces_eq. split.
  - apply for_after_first_request.
  - apply for_busy.
Qed.

Lemma for_full (l : list nat) c :
  MAX_OUTSTANDING_REQUESTS <= length (requests (wire c)) ->
  for_ l requestPieces_body c = (tt, c, []).
Proof.
  intros Hfull. induction l as [|i l IH]; [reflexivity|].
  cbn [for_]. unfold bind. rewrite requestPieces_body_eq, requestPiece_eq.
  destruct (Nat.leb_spec MAX_OUTSTANDING_REQUESTS (length (requests (wire c))))
    as [_|Hroom]; [|lia].
  destruct (candidate c i); by rewrite IH.
Qed.

(** X4. On a wire that holds 5 or more outstanding requests, an UNCHOKE
    only clears [peerChoking]: the fill cycle selects nothing, requests
    nothing and leaves the storage engine as it is. *)
Theorem unchoke_on_full_wire_is_silent c :
  5 <= length (requests (wire c)) ->
  deliver peer_unchoke c = (tt, updated peer_unchoke c, []).
Proof.
  intros Hfull. rewrite deliver_eq.
  destruct (exchange (wire c)); [|reflexivity].
  rewrite requestPieces_eq. apply for_full. exact Hfull.
Qed.

End MoreSchedulerProperties.

(** * Further properties of the session *)

Section MoreSessionProperties.
Context {S : Type} `{Storage.Engine S} `{Parser}.
Implicit Types (self : Torrent.t S) (candidate : Buffer).

Lemma forEach_wire_eq (st : S) (ws : list Wire) :
  Torrent.forEach_wire st ws
  = (map switched ws,
     flat_map (fun w => [wire_bitfield (remoteAddress w) (Storage.bitfield st);
                         wire_interested (remoteAddress w)]) ws).
Proof.
  induction ws as [|w ws IH]; [reflexivity|].
  cbn [Torrent.forEach_wire]. rewrite IH. reflexivity.
Qed.

(** X5. When a candidate is accepted, the storage engine is built first,
    then every wire already in the swarm is sent the bitfield of the new
    engine followed by an INTERESTED, in swarm order, and 'metadata' is
    emitted last; each of these wires gets the block-exchange handlers and
    keeps its outstanding requests, the peer's pieces and the choke state. *)
Theorem accepted_candidate_switches_every_wire self candidate
        (parsed : ParsedTorrent) (ws : list Wire) :
  Torrent.metadata self = None ->
  parseTorrent candidate = inr parsed ->
  Torrent.swarm self = Some ws ->
  Torrent.swarm (fst (Torrent._onMetadata self candidate))
  = Some (map switched ws)
  /\ snd (Torrent._onMetadata self candidate)
     = storage_new parsed
         :: flat_map
              (fun w => [wire_bitfield (remoteAddress w)
                                       (Storage.bitfield (Storage.new parsed));
                         wire_interested (remoteAddress w)]) ws
         ++ [emit ev_metadata].
Proof.
  intros Hnone Hparsed Hswarm.
  rewrite _onMetadata_first by exact Hnone.
  rewrite Hparsed, Hswarm. cbn. rewrite forEach_wire_eq. split; reflexivity.
Qed.

Lemma _onMetadata_coherent self candidate :
  coherent self -> coherent (fst (Torrent._onMetadata self candidate)).
Proof.
  intros Hco. destruct (Torrent.metadata self) as [m|] eqn:Hm.
  - rewrite _onMetadata_again by eauto. exact Hco.
  - rewrite _onMetadata_first by exact Hm.
    unfold coherent in *.
    destruct (Torrent.parsedTorrent self), (Torrent.storage self);
      try contradiction.
    + destruct Hco as (_ & _ & _ & [m Hsome] & _). congruence.
    + destruct (parseTorrent candidate) as [err|parsed]; cbn; [exact Hco|].
      rewrite Hco. repeat split. eauto.
Qed.

(** X6. Whatever candidates are delivered to a session that has a
    descriptor and a storage engine or neither, it ends with both or
    neither; with both, the engine is the one built from the descriptor,
    fingerprint and name are the descriptor's and the files are the
    engine's, listed once. *)
Theorem deliveries_keep_descriptor_and_storage_together self
        (candidates : list Buffer) :
  coherent self ->
  coherent (fst (Torrent.deliveries self candidates)).
Proof.
  revert self. induction candidates as [|candidate rest IH]; intros self Hco;
    [exact Hco|].
  cbn. pose proof (_onMetadata_coherent self candidate Hco) as H1.
  destruct (Torrent._onMetadata self candidate) as [self1 t1].
  specialize (IH self1 H1).
  destruct (Torrent.deliveries self1 rest) as [self2 t2]. exact IH.
Qed.

Lemma _onWire_calls self (dhtPort : option Z) (peer_dht : bool) (w : Wire) :
  snd (fst (Adapter._onWire self dhtPort peer_dht w))
  = handshake_calls self dhtPort peer_dht w
    ++ match Torrent.metadata self, Torrent.storage self with
       | Some _, Some st =>
           [on_wire (wire_bitfield (remoteAddress w) (Storage.bitfield st));
            on_wire (wire_interested (remoteAddress w))]
       | _, _ => []
       end.
Proof.
  unfold Adapter._onWire, handshake_calls, PIECE_TIMEOUT.
  destruct (Torrent.metadata self) as [m|];
    destruct (Torrent.storage self) as [st|]; cbn [fst snd];
    rewrite ?app_nil_r; reflexivity.
Qed.

Lemma handshake_calls_spec self (dhtPort : option Z) (peer_dht : bool)
      (w : Wire) :
  let calls := handshake_calls self dhtPort peer_dht w in
  (forall c, ~ In (on_wire c) calls)
  /\ (In (wire_fetch (remoteAddress w)) calls <-> Torrent.metadata self = None)
  /\ In (wire_setKeepAlive (remoteAddress w) true) calls
  /\ In (wire_setTimeout (remoteAddress w) 10000) calls.
Proof.
  cbv zeta. unfold handshake_calls.
  destruct (Torrent.metadata self) as [m|];
    destruct (Adapter.dht_port peer_dht dhtPort) as [port|]; cbn;
    (split; [intros c; intuition discriminate|]);
    (split; [intuition (discriminate || congruence)|]);
    split; auto 10.
Qed.

(** X7. A new wire is asked for the metadata exactly when the session has
    none.  It is sent a bitfield, which is the storage engine's, and
    INTERESTED exactly when the session has metadata and a storage engine,
    and these two are then the last calls, in that order.  In every case
    keep-alive is switched on and the request timeout is set to 10
    seconds. *)
Theorem new_wire_fetches_or_exchanges self (dhtPort : option Z)
        (peer_dht : bool) (w : Wire) :
  let calls := snd (fst (Adapter._onWire self dhtPort peer_dht w)) in
  let addr := remoteAddress w in
  (In (wire_fetch addr) calls <-> Torrent.metadata self = None)
  /\ (In (on_wire (wire_interested addr)) calls <->
      is_Some (Torrent.metadata self) /\ is_Some (Torrent.storage self))
  /\ (forall bits,
        In (on_wire (wire_bitfield addr bits)) calls <->
        is_Some (Torrent.metadata self)
        /\ exists st, Torrent.storage self = Some st
                      /\ bits = Storage.bitfield st)
  /\ (forall st,
        is_Some (Torrent.metadata self) ->
        Torrent.storage self = Some st ->
        exists before,
          calls = before ++ [on_wire (wire_bitfield addr (Storage.bitfield st));
                             on_wire (wire_interested addr)])
  /\ In (wire_setKeepAlive addr true) calls
  /\ In (wire_setTimeout addr 10000) calls.
Proof.
  cbv zeta. rewrite _onWire_calls.
  pose proof (handshake_calls_spec self dhtPort peer_dht w)
    as (Hnone & Hfetch & Hkeep & Htimeout). cbv zeta in *.
  set (common := handshake_calls self dhtPort peer_dht w) in *.
  split; [|split; [|split; [|split; [|split]]]].
  - rewrite in_app_iff, Hfetch. split; [|by left].
    intros [Hm|Hin]; [exact Hm|].
    destruct (Torrent.metadata self), (Torrent.storage self);
      cbn in Hin; intuition discriminate.
  - rewrite in_app_iff. split.
    + intros [Hin|Hin]; [by apply Hnone in Hin|].
      destruct (Torrent.metadata self), (Torrent.storage self);
        cbn in Hin; intuition (try discriminate; eauto).
    + intros [[m ->] [st ->]]. right. right. by left.
  - intros bits. rewrite in_app_iff. split.
    + intros [Hin|Hin]; [by apply Hnone in Hin|].
      destruct (Torrent.metadata self), (Torrent.storage self);
        cbn in Hin; try (intuition discriminate).
      destruct Hin as [Hb|[Hi|[]]]; [|discriminate].
      injection Hb as <-. split; eauto.
    + intros [[m ->] (st & -> & ->)]. right. by left.
  - intros st [m ->] ->. by exists common.
  - apply in_app_iff. by left.
  - apply in_app_iff. by left.
Qed.

(** X8. After a candidate that failed to parse, a session without storage
    engine cannot take a new wire: [_onWire] throws a TypeError, after it
    has registered the block-exchange handlers on the wire and before it
    sends bitfield or INTERESTED; the wire is not asked for the metadata. *)
Theorem new_wire_after_corrupt_candidate_throws self candidate (err : Error)
        (dhtPort : option Z) (peer_dht : bool) (w : Wire) :
  Torrent.metadata self = None ->
  Torrent.storage self = None ->
  parseTorrent candidate = inl err ->
  let self1 := fst (Torrent._onMetadata self candidate) in
  let '(w', calls, completion) := Adapter._onWire self1 dhtPort peer_dht w in
  completion = throws "TypeError: Cannot read property 'bitfield' of null"
  /\ exchange w' = true
  /\ ~ In (wire_fetch (remoteAddress w)) calls
  /\ (forall c, ~ In (on_wire c) calls).
Proof.
  intros Hnone Hstorage Herr. cbv zeta.
  rewrite _onMetadata_first by exact Hnone. rewrite Herr.
  unfold Adapter._onWire. cbn. rewrite Hstorage.
  split; [reflexivity|]. split; [reflexivity|].
  destruct (Adapter.dht_port peer_dht dhtPort); cbn;
    split; try (intros c); intuition discriminate.
Qed.

End MoreSessionProperties.

(** * Properties of the client *)

Lemma hex_digit_not_m (n : nat) : hex_digit n <> "m"%char.
Proof. do 15 (destruct n as [|n]; [discriminate|]). discriminate. Qed.

Lemma to_hex_length (b : Buffer) : String.length (to_hex b) = 2 * length b.
Proof. induction b as [|x b IH]; [reflexivity|]. cbn. rewrite IH. lia. Qed.

Lemma to_hex_not_magnet (b : Buffer) : String.prefix "magnet:" (to_hex b) = false.
Proof.
  destruct b as [|x b]; [reflexivity|].
  cbn [to_hex]. unfold String.prefix; fold String.prefix.
  destruct (ascii_dec "m" (hex_digit (Byte.to_nat x / 16))) as [Heq|_];
    [|reflexivity].
  symmetry in Heq. by apply hex_digit_not_m in Heq.
Qed.

Section ClientProperties.
Context {S : Type} `{Storage.Engine S} `{Parser} `{MagnetUri}.
Implicit Types (self : Client.t S) (torrent : Client.Handle S).

Lemma search_Some (infoHash : InfoHash) (l : list (Client.Handle S))
      (i j : nat) torrent :
  Client.search infoHash i l = Some (j, torrent) ->
  exists k, j = i + k /\ first_match infoHash l k torrent.
Proof.
  revert i. induction l as [|x l IH]; intros i Hs; [discriminate|].
  cbn in Hs. destruct (Client.matches infoHash x) eqn:Hx.
  - injection Hs as <- <-. exists 0. split; [lia|].
    split; [reflexivity|]. split; [exact Hx|]. intros k' other Hlt. lia.
  - apply IH in Hs as (k & -> & Hk & Hm & Hfirst).
    exists (Datatypes.S k). split; [lia|]. split; [exact Hk|].
    split; [exact Hm|]. intros [|k'] other Hlt Hother.
    + cbn in Hother. congruence.
    + apply (Hfirst k' other); [lia|exact Hother].
Qed.

Lemma search_None (infoHash : InfoHash) (l : list (Client.Handle S)) (i : nat) :
  Client.search infoHash i l = None <->
  Forall (fun torrent => Client.matches infoHash torrent = false) l.
Proof.
  revert i. induction l as [|x l IH]; intros i; cbn.
  - split; [constructor|reflexivity].
  - destruct (Client.matches infoHash x) eqn:Hx.
    + split; [discriminate|]. intros Hall. inversion Hall; congruence.
    + rewrite IH. split; [by constructor|]. intros Hall. by inversion Hall.
Qed.

(** X9. [get] returns the first torrent of the client, in the order they
    were added, whose fingerprint is strictly equal to the normalised
    [torrentId]; it returns null exactly when no torrent has it. *)
Theorem get_returns_first_match self (torrentId : TorrentId) :
  match Client.get self torrentId with
  | Some torrent =>
      exists k, first_match (Client.toInfoHash torrentId)
                            (Client.torrents self) k torrent
  | None =>
      Forall (fun torrent =>
                Client.matches (Client.toInfoHash torrentId) torrent = false)
             (Client.torrents self)
  end.
Proof.
  unfold Client.get.
  destruct (Client.search _ 0 _) as [[j torrent]|] eqn:Hs; cbn.
  - apply search_Some in Hs as (k & _ & Hk). eauto.
  - by apply search_None in Hs.
Qed.

(** X10. A Buffer that is not 20 bytes long and does not parse as a
    torrent file is no [torrentId] of any torrent: [toInfoHash] catches the
    parser's exception and returns null, and [get] returns null whatever
    torrents the client holds. *)
Theorem get_of_unparsable_buffer_is_null self (b : Buffer) (err : Error) :
  length b <> 20 ->
  parseTorrent b = inl err ->
  Client.toInfoHash (id_buffer b) = hash_null
  /\ Client.get self (id_buffer b) = None.
Proof.
  intros Hlen Herr.
  assert (Hnull : Client.toInfoHash (id_buffer b) = hash_null).
  { unfold Client.toInfoHash. apply Nat.eqb_neq in Hlen. by rewrite Hlen, Herr. }
  split; [exact Hnull|]. unfold Client.get. rewrite Hnull.
  replace (Client.search hash_null 0 (Client.torrents self)) with
    (@None (nat * Client.Handle S)); [reflexivity|].
  symmetry. apply search_None. apply Forall_forall. intros torrent _.
  unfold Client.matches, Client.strict_eq.
  by destruct (Torrent.infoHash (Client.session torrent)).
Qed.

(** X11. A fingerprint given as 20 bytes is normalised to its 40 hex
    digits; when magnet-uri reads that fingerprint back from the URI made
    of them, the bytes and the hex string are the same [torrentId]: they
    normalise to the same fingerprint and [get] finds the same torrent. *)
Theorem buffer_and_hex_string_name_the_same_torrent self (b : Buffer) :
  length b = 20 ->
  magnet_infoHash (magnet ("magnet:?xt=urn:btih:" ++ to_hex b))
  = Some (to_hex b) ->
  String.length (to_hex b) = 40
  /\ Client.toInfoHash (id_buffer b) = hash_string (to_hex b)
  /\ Client.toInfoHash (id_string (to_hex b)) = Client.toInfoHash (id_buffer b)
  /\ Client.get self (id_string (to_hex b)) = Client.get self (id_buffer b).
Proof.
  intros Hlen Hmagnet.
  assert (Hhex : String.length (to_hex b) = 40)
    by (rewrite to_hex_length; lia).
  assert (Hbuf : Client.toInfoHash (id_buffer b) = hash_string (to_hex b)).
  { unfold Client.toInfoHash. by rewrite Hlen. }
  assert (Hstr : Client.toInfoHash (id_string (to_hex b))
                 = hash_string (to_hex b)).
  { unfold Client.toInfoHash, Client.as_magnet_uri, Client.of_magnet.
    rewrite to_hex_not_magnet, Hhex. cbn [negb andb orb Nat.eqb].
    by rewrite Hmagnet. }
  split; [exact Hhex|]. split; [exact Hbuf|].
  split; [by rewrite Hstr, Hbuf|].
  unfold Client.get. by rewrite Hstr, Hbuf.
Qed.

(** X12. [remove] of a [torrentId] that [get] does not find throws and
    changes nothing.  Otherwise it takes exactly the torrent [get] returns
    out of the list, leaving the others in their order, and destroys that
    torrent's swarm with the caller's callback. *)
Theorem remove_takes_out_what_get_finds self (torrentId : TorrentId)
        (cb : option Callback) :
  match Client.get self torrentId with
  | None =>
      Client.remove self torrentId cb
      = (self, [], Some (no_torrent_with_id torrentId))
  | Some torrent =>
      exists k,
        first_match (Client.toInfoHash torrentId) (Client.torrents self)
                    k torrent
        /\ Client.remove self torrentId cb
           = (Client.mk (delete k (Client.torrents self)) (Client.dht self),
              [swarm_destroy (Torrent.infoHash (Client.session torrent)) cb],
              None)
  end.
Proof.
  unfold Client.get, Client.remove.
  destruct (Client.search _ 0 _) as [[j torrent]|] eqn:Hs; cbn;
    [|reflexivity].
  apply search_Some in Hs as (k & -> & Hk). exists k. split; [exact Hk|].
  reflexivity.
Qed.

Lemma destroy_each_recognised (clone : list (Client.Handle S)) (d : bool) :
  Forall recognised clone ->
  Client.destroy_each clone (Client.mk clone d)
  = (Client.mk [] d,
     map (fun torrent =>
            swarm_destroy (Torrent.infoHash (Client.session torrent)) None)
         clone,
     None).
Proof.
  induction clone as [|torrent rest IH]; intros Hall; [reflexivity|].
  inversion Hall as [|? ? Hrec Hrest]; subst.
  cbn [Client.destroy_each]. unfold Client.remove.
  cbn [Client.torrents Client.search]. unfold recognised in Hrec.
  rewrite Hrec. cbn. rewrite (IH Hrest). reflexivity.
Qed.

(** X13. When [toInfoHash] gives back the fingerprint of every torrent of
    the client, [destroy] closes the DHT if there is one, destroys the
    swarm of each torrent in the order of the list and leaves the client
    without torrents.  No swarm is given the caller's callback. *)
Theorem destroy_removes_every_torrent self (cb : option Callback) :
  Forall recognised (Client.torrents self) ->
  Client.destroy self cb
  = (Client.mk [] (Client.dht self),
     (if Client.dht self then [dht_close] else [])
     ++ map (fun torrent =>
               swarm_destroy (Torrent.infoHash (Client.session torrent)) None)
            (Client.torrents self),
     None).
Proof.
  intros Hall. unfold Client.destroy. destruct self as [l d]. cbn in *.
  by rewrite (destroy_each_recognised l d Hall).
Qed.

Lemma fold_left_zero {A} (f : A -> Z) (l : list A) (acc : Z) :
  Forall (fun x => f x = 0%Z) l ->
  fold_left (fun total x => (total + f x)%Z) l acc = acc.
Proof.
  revert acc. induction l as [|x l IH]; intros acc Hall; [reflexivity|].
  inversion Hall as [|? ? Hx Hl]; subst. cbn. rewrite Hx, Z.add_0_r.
  by apply IH.
Qed.

(** X14. A client none of whose torrents has a storage engine yet reports
    the ratio 0, whatever has been uploaded; so does a client without
    torrents. *)
Theorem ratio_is_zero_before_any_descriptor self :
  Forall (fun torrent => Torrent.storage (Client.session torrent) = None)
         (Client.torrents self) ->
  Client.ratio self = int 0.
Proof.
  intros Hall. unfold Client.ratio.
  rewrite (fold_left_zero
             (fun torrent => Torrent.downloaded (Client.session torrent))).
  - reflexivity.
  - eapply Forall_impl; [|exact Hall]. cbn. intros torrent Hnone.
    unfold Torrent.downloaded. by rewrite Hnone.
Qed.


Lemma search_offset (infoHash : InfoHash) (l : list (Client.Handle S))
      (i j : nat) :
  snd <$> Client.search infoHash i l = snd <$> Client.search infoHash j l.
Proof.
  revert i j. induction l as [|x l IH]; intros i j; [reflexivity|].
  cbn. destruct (Client.matches infoHash x); [reflexivity|]. apply IH.
Qed.

Lemma search_delete_other (infoHash : InfoHash) (l : list (Client.Handle S))
      (i k : nat) torrent :
  l !! k = Some torrent ->
  Client.matches infoHash torrent = false ->
  snd <$> Client.search infoHash i (delete k l)
  = snd <$> Client.search infoHash i l.
Proof.
  revert i k. induction l as [|x l IH]; intros i k Hk Hno; [discriminate|].
  destruct k as [|k]; cbn in *.
  - injection Hk as ->. rewrite Hno. apply search_offset.
  - destruct (Client.matches infoHash x); [reflexivity|]. by apply IH.
Qed.

Lemma filter_none (infoHash : InfoHash) (l : list (Client.Handle S)) :
  length (List.filter (Client.matches infoHash) l) = 0 ->
  Forall (fun torrent => Client.matches infoHash torrent = false) l.
Proof.
  induction l as [|x l IH]; [constructor|]. cbn.
  destruct (Client.matches infoHash x) eqn:Hx; [discriminate|].
  intros Hl. constructor; [exact Hx|]. by apply IH.
Qed.

(** X16. Removing a torrent does not change what [get] returns for a
    [torrentId] with another fingerprint; and when the removed torrent was
    the only one with its fingerprint, [get] of that [torrentId] returns
    null afterwards. *)
Theorem get_after_remove self (torrentId other : TorrentId)
        (cb : option Callback) torrent :
  Client.get self torrentId = Some torrent ->
  let self' := fst (fst (Client.remove self torrentId cb)) in
  (Client.matches (Client.toInfoHash other) torrent = false ->
   Client.get self' other = Client.get self other)
  /\ (length (List.filter (Client.matches (Client.toInfoHash torrentId))
                          (Client.torrents self)) = 1 ->
      Client.get self' torrentId = None).
Proof.
  unfold Client.get, Client.remove.
  destruct (Client.search _ 0 _) as [[j found]|] eqn:Hs; [|discriminate].
  cbn. intros [= ->].
  apply search_Some in Hs as (k & -> & Hk & Hm & Hfirst). cbn. split.
  - intros Hother. by apply (search_delete_other _ _ 0 k torrent).
  - intros Hone.
    replace (Client.search (Client.toInfoHash torrentId) 0
                           (delete k (Client.torrents self)))
      with (@None (nat * Client.Handle S)); [reflexivity|].
    symmetry. apply search_None. apply filter_none.
    rewrite <- (take_drop_middle _ _ _ Hk) in Hone.
    rewrite List.filter_app, length_app in Hone. cbn in Hone.
    rewrite Hm in Hone. cbn in Hone.
    rewrite delete_take_drop, List.filter_app, length_app. lia.
Qed.

End ClientProperties.

(** * The further properties on the concrete inputs *)

Section MoreOnExamples.
Local Existing Instance Example.engine.
Local Existing Instance Example.parser.
Local Existing Instance ClientExample.magnet_uri.

Lemma have_ignored_when_choked_or_unknown_witness :
  peerChoking (wire ClientExample.choked) = true
  /\ trace_of (deliver (peer_have 1) ClientExample.choked) = []
  /\ storage (state_of (deliver (peer_have 1) ClientExample.choked))
     = storage ClientExample.choked.
Proof.
  split; [reflexivity|].
  rewrite (have_ignored_when_choked_or_unknown ClientExample.choked 1
             (or_introl eq_refl)).
  split; reflexivity.
Defined.

Lemma fill_cycle_sends_one_block_per_piece_witness :
  sent (trace_of (requestPieces Example.conn))
  = [mkRequest 0 0 16384; mkRequest 1 0 16384]
  /\ length (sent (trace_of (requestPieces Example.conn))) <= 5 - 0.
Proof.
  split; [reflexivity|].
  apply (fill_cycle_sends_one_block_per_piece Example.conn).
Defined.

Lemma fill_cycle_endgame_before_first_request_witness :
  requests (wire ClientExample.pending) <> []
  /\ selected (trace_of (requestPieces ClientExample.pending)) = [0; 1]
  /\ endgame_selections (trace_of (requestPieces ClientExample.pending)) = [].
Proof.
  assert (Hbusy : requests (wire ClientExample.pending) <> [])
    by discriminate.
  split; [exact Hbusy|]. split; [reflexivity|].
  apply (proj2 (fill_cycle_endgame_before_first_request
                  ClientExample.pending) Hbusy).
Defined.

Lemma unchoke_on_full_wire_is_silent_witness :
  5 <= length (requests (wire Example.busy))
  /\ trace_of (deliver peer_unchoke Example.busy) = [].
Proof.
  assert (Hfull : 5 <= length (requests (wire Example.busy))) by (cbn; lia).
  split; [exact Hfull|].
  by rewrite (unchoke_on_full_wire_is_silent Example.busy Hfull).
Defined.

Lemma accepted_candidate_switches_every_wire_witness :
  Torrent.metadata Example.fresh = None
  /\ parseTorrent Example.good = inr Example.descriptor
  /\ Torrent.swarm Example.fresh = Some [Example.peer]
  /\ snd (Torrent._onMetadata Example.fresh Example.good)
     = [storage_new Example.descriptor;
        wire_bitfield "10.0.0.2:6881" [false; false];
        wire_interested "10.0.0.2:6881";
        emit ev_metadata].
Proof.
  assert (Hnone : Torrent.metadata Example.fresh = None) by reflexivity.
  assert (Hparsed : parseTorrent Example.good = inr Example.descriptor)
    by reflexivity.
  assert (Hswarm : Torrent.swarm Example.fresh = Some [Example.peer])
    by reflexivity.
  split; [exact Hnone|]. split; [exact Hparsed|]. split; [exact Hswarm|].
  rewrite (proj2 (accepted_candidate_switches_every_wire
                    Example.fresh Example.good Example.descriptor
                    [Example.peer] Hnone Hparsed Hswarm)).
  reflexivity.
Defined.

Lemma deliveries_keep_descriptor_and_storage_together_witness :
  coherent Example.fresh
  /\ coherent (fst (Torrent.deliveries Example.fresh
                       [Example.good; Example.corrupt])).
Proof.
  assert (Hco : coherent Example.fresh) by reflexivity.
  split; [exact Hco|].
  apply (deliveries_keep_descriptor_and_storage_together
           Example.fresh [Example.good; Example.corrupt] Hco).
Defined.

Lemma new_wire_fetches_or_exchanges_witness :
  In (wire_fetch "10.0.0.2:6881")
     (snd (fst (Adapter._onWire Example.fresh (Some 6881%Z) true Example.peer)))
  /\ In (on_wire (wire_interested "10.0.0.2:6881"))
        (snd (fst (Adapter._onWire ClientExample.ready None false
                                   Example.peer)))
  /\ In (on_wire (wire_bitfield "10.0.0.2:6881" [false; false]))
        (snd (fst (Adapter._onWire ClientExample.ready None false
                                   Example.peer))).
Proof.
  split; [|split].
  - apply (proj1 (new_wire_fetches_or_exchanges
                    Example.fresh (Some 6881%Z) true Example.peer)).
    reflexivity.
  - apply (proj1 (proj2 (new_wire_fetches_or_exchanges
                           ClientExample.ready None false Example.peer))).
    split; eexists; reflexivity.
  - apply (proj1 (proj2 (proj2 (new_wire_fetches_or_exchanges
                                  ClientExample.ready None false
                                  Example.peer)))).
    split; [eexists; reflexivity|]. eexists. split; reflexivity.
Defined.

Lemma new_wire_after_corrupt_candidate_throws_witness :
  Torrent.metadata Example.fresh = None
  /\ Torrent.storage Example.fresh = None
  /\ parseTorrent Example.corrupt = inl "Invalid data: Missing delimiter"
  /\ snd (Adapter._onWire
            (fst (Torrent._onMetadata Example.fresh Example.corrupt))
            None false Example.peer)
     = throws "TypeError: Cannot read property 'bitfield' of null".
Proof.
  assert (Hnone : Torrent.metadata Example.fresh = None) by reflexivity.
  assert (Hstorage : Torrent.storage Example.fresh = None) by reflexivity.
  assert (Herr : parseTorrent Example.corrupt
                 = inl "Invalid data: Missing delimiter") by reflexivity.
  split; [exact Hnone|]. split; [exact Hstorage|]. split; [exact Herr|].
  pose proof (new_wire_after_corrupt_candidate_throws
                Example.fresh Example.corrupt
                "Invalid data: Missing delimiter" None false Example.peer
                Hnone Hstorage Herr) as Hthrows.
  cbv zeta in Hthrows.
  destruct (Adapter._onWire _ None false Example.peer) as [[w' calls] done].
  exact (proj1 Hthrows).
Defined.

Lemma get_returns_first_match_witness :
  Client.get ClientExample.client (id_string ClientExample.grass_hash)
  = Some (ClientExample.torrent ClientExample.grass_hash 4096)
  /\ exists k,
       first_match (Client.toInfoHash (id_string ClientExample.grass_hash))
                   (Client.torrents ClientExample.client) k
                   (ClientExample.torrent ClientExample.grass_hash 4096).
Proof.
  split; [reflexivity|].
  exact (get_returns_first_match ClientExample.client
           (id_string ClientExample.grass_hash)).
Defined.

Lemma get_of_unparsable_buffer_is_null_witness :
  length Example.corrupt <> 20
  /\ parseTorrent Example.corrupt = inl "Invalid data: Missing delimiter"
  /\ Client.get ClientExample.client (id_buffer Example.corrupt) = None.
Proof.
  assert (Hlen : length Example.corrupt <> 20) by (cbn; lia).
  assert (Herr : parseTorrent Example.corrupt
                 = inl "Invalid data: Missing delimiter") by reflexivity.
  split; [exact Hlen|]. split; [exact Herr|].
  apply (get_of_unparsable_buffer_is_null ClientExample.client
           Example.corrupt _ Hlen Herr).
Defined.

Lemma buffer_and_hex_string_name_the_same_torrent_witness :
  length ClientExample.leaves_bytes = 20
  /\ to_hex ClientExample.leaves_bytes = ClientExample.leaves_hash
  /\ Client.get ClientExample.client
                (id_string (to_hex ClientExample.leaves_bytes))
     = Client.get ClientExample.client (id_buffer ClientExample.leaves_bytes).
Proof.
  assert (Hlen : length ClientExample.leaves_bytes = 20) by reflexivity.
  assert (Hmagnet :
            magnet_infoHash
              (magnet ("magnet:?xt=urn:btih:"
                       ++ to_hex ClientExample.leaves_bytes))
            = Some (to_hex ClientExample.leaves_bytes))
    by (vm_compute; reflexivity).
  split; [exact Hlen|]. split; [reflexivity|].
  apply (buffer_and_hex_string_name_the_same_torrent
           ClientExample.client ClientExample.leaves_bytes Hlen Hmagnet).
Defined.

Lemma remove_takes_out_what_get_finds_witness :
  Client.remove ClientExample.client (id_string ClientExample.leaves_hash)
                (Some (callback 1))
  = (Client.mk [ClientExample.torrent ClientExample.grass_hash 4096] true,
     [swarm_destroy (Some ClientExample.leaves_hash) (Some (callback 1))],
     None)
  /\ Client.remove ClientExample.client (id_string "no such torrent") None
     = (ClientExample.client, [],
        Some (no_torrent_with_id (id_string "no such torrent"))).
Proof.
  split; [reflexivity|].
  exact (remove_takes_out_what_get_finds ClientExample.client
           (id_string "no such torrent") None).
Defined.

Lemma destroy_removes_every_torrent_witness :
  Forall recognised (Client.torrents ClientExample.client)
  /\ Client.destroy ClientExample.client (Some (callback 1))
     = (Client.mk [] true,
        [dht_close;
         swarm_destroy (Some ClientExample.leaves_hash) None;
         swarm_destroy (Some ClientExample.grass_hash) None],
        None).
Proof.
  assert (Hall : Forall recognised (Client.torrents ClientExample.client))
    by (repeat constructor).
  split; [exact Hall|].
  apply (destroy_removes_every_torrent ClientExample.client
           (Some (callback 1)) Hall).
Defined.

Lemma ratio_is_zero_before_any_descriptor_witness :
  Forall (fun torrent => Torrent.storage (Client.session torrent) = None)
         (Client.torrents ClientExample.client)
  /\ Client.ratio ClientExample.client = int 0.
Proof.
  assert (Hall : Forall (fun torrent =>
                           Torrent.storage (Client.session torrent) = None)
                        (Client.torrents ClientExample.client))
    by (repeat constructor).
  split; [exact Hall|].
  apply (ratio_is_zero_before_any_descriptor ClientExample.client Hall).
Defined.


Lemma get_after_remove_witness :
  Client.get ClientExample.client (id_string ClientExample.leaves_hash)
  = Some (ClientExample.torrent ClientExample.leaves_hash 0)
  /\ Client.get
       (fst (fst (Client.remove ClientExample.client
                                (id_string ClientExample.leaves_hash) None)))
       (id_string ClientExample.grass_hash)
     = Client.get ClientExample.client (id_string ClientExample.grass_hash)
  /\ Client.get
       (fst (fst (Client.remove ClientExample.client
                                (id_string ClientExample.leaves_hash) None)))
       (id_string ClientExample.leaves_hash)
     = None.
Proof.
  assert (Hget : Client.get ClientExample.client
                            (id_string ClientExample.leaves_hash)
                 = Some (ClientExample.torrent ClientExample.leaves_hash 0))
    by reflexivity.
  split; [exact Hget|].
  destruct (get_after_remove ClientExample.client
              (id_string ClientExample.leaves_hash)
              (id_string ClientExample.grass_hash) None _ Hget)
    as [Hother Hsame].
  split; [apply Hother|apply Hsame]; reflexivity.
Defined.

End MoreOnExamples.
